(** * ZDA Funding Wallet API (server.js): a shallow embedding and its properties

    The definitions follow the source file:
    - the ECMAScript operations the handlers call ([parseInt], [Math.min],
      [||], [parseFloat], [toFixed], property reads on parsed JSON);
    - [fetchAddressData] and [fetchWalletInfo], as statements over the
      variables of [fetchWalletInfo] that may throw;
    - the query construction of [GET /api/v1/cards], the three statements it
      sends to the database and the in-process join with [card_stage_funding];
    - [GET /api/v1/cards/:id].
    The properties come after all definitions.

    Conventions.  Text is [string], one [ascii] per code unit (code units
    above 255 are outside the model).  Numbers that the code uses as integers
    only (page, limit, offset, row counts) are [jsnum]: an integer that
    binary64 represents, an infinity or NaN; [parseInt], [-] and [*] round
    their exact result to the nearest binary64 value, as the engine does.
    Amounts (balances, funding) are binary64 values, the primitive [float].
    What the code obtains from the JavaScript engine, the network or
    PostgreSQL is an explicit argument: [engine], [network], [database]. *)

From Stdlib Require Import ZArith List String Ascii Bool Lia Floats.
From stdpp Require Import base option list gmap strings.

Set Warnings "-register-all".

Local Open Scope string_scope.
Local Open Scope Z_scope.

(* ===================================================================== *)
(** ** Text *)

Definition digit_char (d : Z) : ascii := ascii_of_nat (48 + Z.to_nat d).

(** Decimal digits of [z >= 0], most significant first, in front of [acc]. *)
Fixpoint Z_digits (fuel : nat) (z : Z) (acc : string) : string :=
  match fuel with
  | O => acc
  | S fuel' =>
      let acc' := String (digit_char (z mod 10)) acc in
      if z <? 10 then acc' else Z_digits fuel' (z / 10) acc'
  end.

(** Decimal digits of a non-negative integer. *)
Definition string_of_Z (z : Z) : string :=
  Z_digits (S (Z.to_nat (Z.log2 z))) z "".

(** [String(n)] for a non-negative integer: what a template literal
    [`$${idx}`] or [`${response.status}`] inserts. *)
Definition string_of_nat (n : nat) : string := string_of_Z (Z.of_nat n).

(** [Array.prototype.join]. *)
Fixpoint join (sep : string) (parts : list string) : string :=
  match parts with
  | [] => ""
  | [p] => p
  | p :: rest => p +:+ sep +:+ join sep rest
  end.

(** ECMAScript WhiteSpace and LineTerminator, among code units below 256. *)
Definition is_white_space (c : ascii) : bool :=
  match nat_of_ascii c with
  | 9%nat | 10%nat | 11%nat | 12%nat | 13%nat | 32%nat | 160%nat => true
  | _ => false
  end.

Fixpoint trim_start (s : string) : string :=
  match s with
  | String c rest => if is_white_space c then trim_start rest else s
  | EmptyString => s
  end.

Definition digit_value (c : ascii) : option Z :=
  let n := nat_of_ascii c in
  if ((48 <=? n) && (n <=? 57))%nat then Some (Z.of_nat (n - 48)) else None.

(** The longest run of decimal digits at the start of [s]: its value when
    read after the digits already in [acc] ([None]: no digit read so far),
    how many digits were read, and what follows them. *)
Fixpoint scan_digits (s : string) (acc : option Z) (count : nat)
  : option Z * nat * string :=
  match s with
  | String c rest =>
      match digit_value c with
      | Some d =>
          scan_digits rest (Some (10 * default 0 acc + d)) (S count)
      | None => (acc, count, s)
      end
  | EmptyString => (acc, count, s)
  end.

(* ===================================================================== *)
(** ** Integer-valued Numbers *)

Inductive jsnum : Type :=
| NaN
| Inf (negative : bool)
| Num (z : Z).

(** The multiple of [2^e] nearest to [a >= 0], as a number of such
    multiples; of two that are equally near, the even one. *)
Definition nearest_even (a e : Z) : Z :=
  let q := a / 2 ^ e in
  let r := a mod 2 ^ e in
  if 2 * r <? 2 ^ e then q
  else if 2 ^ e <? 2 * r then q + 1
  else if Z.even q then q else q + 1.

(** The Number for a mathematical integer: the binary64 value nearest to it
    (ties to even), an infinity from [2^1024 - 2^970] on.  Integers below
    [2^53] in magnitude are Numbers as they are; a larger one is rounded to
    53 significant bits. *)
Definition Number_of_Z (z : Z) : jsnum :=
  let a := Z.abs z in
  if a <? 2 ^ 53 then Num z
  else
    let e := Z.log2 a - 52 in
    let v := nearest_even a e * 2 ^ e in
    if 2 ^ 1024 <=? v then Inf (z <? 0) else Num (Z.sgn z * v).

(** [parseInt(text, 10)]: leading white space, an optional sign, then the
    longest prefix of decimal digits, whose value becomes a Number; NaN when
    there is none.  With radix 10 no [0x] prefix is stripped. *)
Definition parseInt (text : string) : jsnum :=
  let s := trim_start text in
  let '(sign, s) :=
    match s with
    | String "-" rest => (-1, rest)
    | String "+" rest => (1, rest)
    | _ => (1, s)
    end in
  match scan_digits s None 0 with
  | (Some n, _, _) => Number_of_Z (sign * n)
  | (None, _, _) => NaN
  end.

(** [a || b] on Numbers: [a] is falsy when it is NaN or zero. *)
Definition js_or (a b : jsnum) : jsnum :=
  match a with
  | NaN | Num 0 => b
  | _ => a
  end.

(** [Math.min(a, b)]. *)
Definition Math_min (a b : jsnum) : jsnum :=
  match a, b with
  | NaN, _ | _, NaN => NaN
  | Inf true, _ | _, Inf true => Inf true
  | Inf false, x | x, Inf false => x
  | Num x, Num y => Num (Z.min x y)
  end.

(** The Number that the library's own rounding to binary64 gives for an
    integer, to compare [Number_of_Z] with. *)
Definition Number_of_spec_float (s : spec_float) : jsnum :=
  match s with
  | S754_zero _ => Num 0
  | S754_infinity negative => Inf negative
  | S754_nan => NaN
  | S754_finite negative m e =>
      Num ((if negative then -1 else 1)
           * (if e <? 0 then Z.pos m / 2 ^ (- e) else Z.pos m * 2 ^ e))
  end.

Definition binary_round_of_Z (z : Z) : jsnum :=
  match z with
  | Z0 => Num 0
  | Zpos p => Number_of_spec_float (binary_round prec emax false p 0)
  | Zneg p => Number_of_spec_float (binary_round prec emax true p 0)
  end.

Definition jsnum_eqb (a b : jsnum) : bool :=
  match a, b with
  | NaN, NaN => true
  | Inf x, Inf y => Bool.eqb x y
  | Num x, Num y => x =? y
  | _, _ => false
  end.

(** Integers around the places where the rounding changes: 2^53, halfway
    cases, the largest finite double and the overflow threshold. *)
Definition rounding_samples : list Z :=
  [0; 1; -1; 2 ^ 53 - 1; 2 ^ 53; 2 ^ 53 + 1; 2 ^ 53 + 2; 2 ^ 53 + 3;
   2 ^ 53 + 4; 2 ^ 53 + 5; 2 ^ 53 + 6; 2 ^ 54 + 1; 2 ^ 54 + 2; 2 ^ 54 + 3;
   2 ^ 54 + 5; 2 ^ 54 + 6; 2 ^ 54 + 7; 9007199254740993; -9007199254740993;
   10 ^ 20 - 1; 99999999999999999999; 10 ^ 21; 10 ^ 22; 10 ^ 23; 10 ^ 23 + 1;
   123456789012345678901234567890; 2 ^ 1023; 2 ^ 1024 - 1; 2 ^ 1024;
   2 ^ 1024 - 2 ^ 970; 2 ^ 1024 - 2 ^ 970 - 1; 2 ^ 1024 - 2 ^ 971;
   2 ^ 1024 - 2 ^ 971 + 1; 10 ^ 308; 10 ^ 309; - 10 ^ 309; 10 ^ 400;
   2 ^ 100 + 2 ^ 47; 2 ^ 100 + 2 ^ 47 + 1; 2 ^ 100 + 2 ^ 48;
   2 ^ 100 + 3 * 2 ^ 47; 2 ^ 100 + 3 * 2 ^ 47 - 1; 3 ^ 200; 7 ^ 150;
   - 3 ^ 333; 5 ^ 300; 17 ^ 250; 2 ^ 53 * 3 + 1; 2 ^ 60 + 2 ^ 7;
   2 ^ 60 + 2 ^ 7 + 1; 2 ^ 60 + 3 * 2 ^ 7].

(** [a - b]. *)
Definition js_sub (a b : jsnum) : jsnum :=
  match a, b with
  | NaN, _ | _, NaN => NaN
  | Inf s, Inf t => if Bool.eqb s t then NaN else Inf s
  | Inf s, Num _ => Inf s
  | Num _, Inf t => Inf (negb t)
  | Num x, Num y => Number_of_Z (x - y)
  end.

(** [a * b]. *)
Definition js_mul (a b : jsnum) : jsnum :=
  match a, b with
  | NaN, _ | _, NaN => NaN
  | Inf s, Inf t => Inf (xorb s t)
  | Inf s, Num y | Num y, Inf s =>
      if y =? 0 then NaN else Inf (xorb s (y <? 0))
  | Num x, Num y => Number_of_Z (x * y)
  end.

(** [Math.ceil(a / b)] with the quotient taken exactly; rounding the quotient
    to binary64 first gives the same integer while [a] is below 2^53 and [b]
    is between 1 and 100 (the quotient is then farther from the integer below
    it than half a unit in its last place, or is that integer). *)
Definition Math_ceil_div (a b : jsnum) : jsnum :=
  match a, b with
  | NaN, _ | _, NaN => NaN
  | Inf _, Inf _ => NaN
  | Inf s, Num y => Inf (xorb s (y <? 0))
  | Num _, Inf _ => Num 0
  | Num x, Num y =>
      if y =? 0 then (if x =? 0 then NaN else Inf (x <? 0))
      else Num (- ((- x) / y))
  end.

(* ===================================================================== *)
(** ** Amounts: binary64 *)

(** The binary64 value nearest to [m * 10^e] (ties to even), with sign
    [negative]: how a decimal literal is read. *)
Definition float_of_decimal (negative : bool) (m : Z) (e : Z) : float :=
  match m with
  | Zpos p =>
      SF2Prim
        (if 0 <=? e
         then binary_round prec emax negative (p * Z.to_pos (10 ^ e)) 0
         else SFdiv prec emax (S754_finite negative p 0)
                (S754_finite false (Z.to_pos (10 ^ (- e))) 0))
  | _ => if negative then (-0)%float else 0%float
  end.

Definition starts_with (prefix s : string) : bool :=
  String.eqb (substring 0 (String.length prefix) s) prefix.

(** [parseFloat(text)]: leading white space is dropped and the longest
    prefix that is a StrDecimalLiteral is read; NaN when there is none. *)
Definition parseFloat (text : string) : float :=
  let s := trim_start text in
  let '(negative, s) :=
    match s with
    | String "-" rest => (true, rest)
    | String "+" rest => (false, rest)
    | _ => (false, s)
    end in
  if starts_with "Infinity" s
  then (if negative then neg_infinity else infinity)
  else
    let '(int_part, int_digits, after_int) := scan_digits s None 0 in
    let '(frac_part, frac_digits, after_frac) :=
      match after_int with
      | String "." rest => scan_digits rest None 0
      | _ => (None, O, after_int)
      end in
    match int_digits, frac_digits with
    | O, O => nan
    | _, _ =>
        let mantissa :=
          default 0 int_part * 10 ^ Z.of_nat frac_digits + default 0 frac_part in
        let exponent :=
          match after_frac with
          | String c rest =>
              if (Ascii.eqb c "e" || Ascii.eqb c "E")%bool then
                let '(exp_negative, digits) :=
                  match rest with
                  | String "-" r => (true, r)
                  | String "+" r => (false, r)
                  | _ => (false, rest)
                  end in
                match scan_digits digits None 0 with
                | (Some x, _, _) => if exp_negative then - x else x
                | (None, _, _) => 0
                end
              else 0
          | EmptyString => 0
          end in
        float_of_decimal negative mantissa (exponent - Z.of_nat frac_digits)
    end.

Fixpoint zeros (n : nat) : string :=
  match n with
  | O => ""
  | S n' => String "0" (zeros n')
  end.

(** Steps 10.a-10.c of [Number.prototype.toFixed] for a non-negative real
    given as [m * 2^e] and [f] fractional digits: the integer [n] nearest to
    [x * 10^f] (the larger one on a tie), written with a decimal point before
    its last [f] digits. *)
Definition fixed_digits (m : Z) (e : Z) (f : nat) : string :=
  let scaled := m * 10 ^ Z.of_nat f in
  let n :=
    if 0 <=? e then scaled * 2 ^ e
    else (2 * scaled + 2 ^ (- e)) / 2 ^ (1 - e) in
  let digits := string_of_Z n in
  let k := String.length digits in
  let padded := if (k <=? f)%nat then zeros (f + 1 - k) +:+ digits else digits in
  let k := String.length padded in
  if (f =? 0)%nat then padded
  else substring 0 (k - f) padded +:+ "." +:+ substring (k - f) f padded.

(** [x.toFixed(f)].  Values that are not finite print as [Number::toString]
    prints them, and so do magnitudes from 10^21 on (a binary64 value with a
    negative exponent is below 2^53); that rendering is the engine's,
    [number_to_string]. *)
Definition toFixed (number_to_string : float -> string) (x : float) (f : nat)
  : string :=
  match Prim2SF x with
  | S754_nan => "NaN"
  | S754_infinity false => "Infinity"
  | S754_infinity true => "-Infinity"
  | S754_zero _ => fixed_digits 0 0 f
  | S754_finite negative m e =>
      let sign := if negative then "-" else "" in
      if (0 <=? e) && (10 ^ 21 <=? Z.pos m * 2 ^ e)
      then sign +:+ number_to_string (abs x)
      else sign +:+ fixed_digits (Z.pos m) e f
  end.

(* ===================================================================== *)
(** ** Exceptions, JSON values and the engine *)

(** A thrown value: an Error object; handlers only read its [message]. *)
Inductive exn : Type :=
| Error (text : string)
| TypeError (text : string).

Definition message (e : exn) : string :=
  match e with
  | Error text | TypeError text => text
  end.

Inductive completion (A : Type) : Type :=
| Normal (a : A)
| Throw (e : exn).
Arguments Normal {A} a.
Arguments Throw {A} e.

(** Evaluation in sequence: the first throw ends it. *)
Definition and_then {A B} (c : completion A) (k : A -> completion B)
  : completion B :=
  match c with
  | Normal a => k a
  | Throw e => Throw e
  end.

Notation "'let?' x ':=' c 'in' k" := (and_then c (fun x => k))
  (at level 10, x name, c at level 100, k at level 200, only parsing).

(** The TypeErrors the engine raises in this program; their wording is the
    engine's. *)
Inductive type_error : Type :=
| ReadOfNullish (is_null : bool) (property : string)
| NotAFunction (property : string)
| NotPrimitive.

(** What [JSON.parse] (or [response.json()]) yields. *)
Inductive json : Type :=
| JNull
| JBool (b : bool)
| JNum (x : float)
| JStr (s : string)
| JArr (items : list json)
| JObj (members : list (string * json)).

(** A JavaScript value as far as the wallet code can tell values apart:
    [undefined], a value parsed from JSON, or a built-in value (a function or
    prototype object reached through a prototype chain, the length of an
    array or string). *)
Inductive jsval : Type :=
| VUndefined
| VBuiltin
| VJson (j : json).

Record engine : Type := {
  (** [Number::toString], used by [toFixed] from 10^21 on *)
  number_to_string : float -> string;
  (** the message of a TypeError *)
  type_error_message : type_error -> string;
  (** [ToNumber] of a string, an array or an object; it throws for an object
      whose own [valueOf] and [toString] are not callable *)
  composite_to_number : json -> completion float;
  (** whether a value of this shape has a property of this name that is not
      in the JSON text: inherited from a prototype, or a length *)
  has_builtin_property : json -> string -> bool
}.

(** The own property [name] of an object literal; [JSON.parse] keeps the
    last of repeated keys. *)
Fixpoint own_property (members : list (string * json)) (name : string)
  : option json :=
  match members with
  | [] => None
  | (k, v) :: rest =>
      match own_property rest name with
      | Some v' => Some v'
      | None => if String.eqb k name then Some v else None
      end
  end.

(** The array index a property name denotes, if it is a canonical one. *)
Definition array_index (name : string) : option nat :=
  match scan_digits name None 0 with
  | (Some n, _, EmptyString) =>
      if String.eqb (string_of_Z n) name then Some (Z.to_nat n) else None
  | _ => None
  end.

(** [base.name] for the names this program writes out ([data], [address],
    [balance], [received], [sent], [transactions]): none of them is a
    built-in property, so only an object parsed from JSON can have one. *)
Definition read (E : engine) (base : jsval) (name : string) : completion jsval :=
  match base with
  | VUndefined => Throw (TypeError (type_error_message E (ReadOfNullish false name)))
  | VJson JNull => Throw (TypeError (type_error_message E (ReadOfNullish true name)))
  | VJson (JObj members) =>
      Normal match own_property members name with
             | Some v => VJson v
             | None => VUndefined
             end
  | _ => Normal VUndefined
  end.

(** [base[key]] for a key computed at run time (the address): an own
    property of an object, an element of an array, a character of a string,
    or else whatever the value has built in under that name. *)
Definition read_computed (E : engine) (base : jsval) (key : string)
  : completion jsval :=
  let builtin_or_undefined (j : json) :=
    if has_builtin_property E j key then VBuiltin else VUndefined in
  match base with
  | VUndefined => Throw (TypeError (type_error_message E (ReadOfNullish false key)))
  | VJson JNull => Throw (TypeError (type_error_message E (ReadOfNullish true key)))
  | VJson ((JObj members) as j) =>
      Normal match own_property members key with
             | Some v => VJson v
             | None => builtin_or_undefined j
             end
  | VJson ((JArr items) as j) =>
      Normal match array_index key ≫= nth_error items with
             | Some v => VJson v
             | None => builtin_or_undefined j
             end
  | VJson ((JStr s) as j) =>
      Normal match array_index key ≫= (fun i => String.get i s) with
             | Some c => VJson (JStr (String c EmptyString))
             | None => builtin_or_undefined j
             end
  | VJson j => Normal (builtin_or_undefined j)
  | VBuiltin => Normal VUndefined
  end.

(** [ToNumber]. *)
Definition ToNumber (E : engine) (v : jsval) : completion float :=
  match v with
  | VUndefined | VBuiltin => Normal nan
  | VJson JNull => Normal 0%float
  | VJson (JBool b) => Normal (if b then 1%float else 0%float)
  | VJson (JNum x) => Normal x
  | VJson j => composite_to_number E j
  end.

(** [v.slice(0, 10)]: arrays and strings have the method. *)
Definition slice_0_10 (E : engine) (v : jsval) : completion json :=
  match v with
  | VUndefined => Throw (TypeError (type_error_message E (ReadOfNullish false "slice")))
  | VJson JNull => Throw (TypeError (type_error_message E (ReadOfNullish true "slice")))
  | VJson (JArr items) => Normal (JArr (firstn 10 items))
  | VJson (JStr s) => Normal (JStr (substring 0 10 s))
  | _ => Throw (TypeError (type_error_message E (NotAFunction "slice")))
  end.

(* ===================================================================== *)
(** ** The network *)

Inductive http_body : Type :=
| BodyJson (data : json)          (* [response.json()] resolves *)
| BodyUnreadable (error : exn).   (* [response.json()] rejects *)

Inductive fetch_outcome : Type :=
| FetchRejected (error : exn)                     (* no response at all *)
| FetchResponse (status : nat) (body : http_body).

(** The outcome of the [n]-th request issued, for its URL. *)
Definition network : Type := nat -> string -> fetch_outcome.

(** [response.ok]. *)
Definition response_ok (status : nat) : bool :=
  ((200 <=? status) && (status <=? 299))%nat.

(* ===================================================================== *)
(** ** fetchAddressData and fetchWalletInfo *)

(** One element of [results]. *)
Inductive address_result : Type :=
| AddressInfo (address : string) (balance total_received total_sent : float)
    (transactions : json)
| AddressError (address : string) (error : string).

(** The variables [fetchWalletInfo] updates, and how many requests were
    issued so far. *)
Record wallet_state : Type := {
  results : list address_result;
  total_balance : float;
  total_received : float;
  total_sent : float;
  requests : nat
}.

(** Statements that read and write those variables and may throw; what was
    written before a throw stays written. *)
Definition stmt (A : Type) : Type := wallet_state -> completion A * wallet_state.

Definition ret {A} (a : A) : stmt A := fun st => (Normal a, st).

Definition throw {A} (e : exn) : stmt A := fun st => (Throw e, st).

Definition bind {A B} (m : stmt A) (k : A -> stmt B) : stmt B :=
  fun st =>
    match m st with
    | (Normal a, st') => k a st'
    | (Throw e, st') => (Throw e, st')
    end.

Notation "'let!' x ':=' m 'in' k" := (bind m (fun x => k))
  (at level 10, x name, m at level 100, k at level 200, only parsing).
Notation "'do!' m 'in' k" := (bind m (fun _ => k))
  (at level 10, m at level 100, k at level 200, only parsing).

(** An expression that may throw and touches no variable. *)
Definition eval {A} (c : completion A) : stmt A := fun st => (c, st).

(** [try { body } catch (error) { handler }]. *)
Definition try_catch {A} (body : stmt A) (handler : exn -> stmt A) : stmt A :=
  fun st =>
    match body st with
    | (Normal a, st') => (Normal a, st')
    | (Throw e, st') => handler e st'
    end.

(** [for (const x of xs) { body }]. *)
Fixpoint for_of {X} (xs : list X) (body : X -> stmt unit) : stmt unit :=
  match xs with
  | [] => ret tt
  | x :: rest => do! body x in for_of rest body
  end.

(** [await fetch(url)]. *)
Definition fetch (net : network) (url : string) : stmt (nat * http_body) :=
  fun st =>
    let st' := {| results := results st; total_balance := total_balance st;
                  total_received := total_received st;
                  total_sent := total_sent st; requests := S (requests st) |} in
    match net (requests st) url with
    | FetchRejected error => (Throw error, st')
    | FetchResponse status body => (Normal (status, body), st')
    end.

(** [await response.json()]. *)
Definition response_json (response : nat * http_body) : stmt json :=
  match snd response with
  | BodyJson data => ret data
  | BodyUnreadable error => throw error
  end.

Definition address_url (address : string) : string :=
  "https://api.blockchair.com/zcash/dashboards/address/"
  +:+ address +:+ "?transactions=true".

Definition fetchAddressData (net : network) (address : string) : stmt json :=
  let url := address_url address in
  let! response := fetch net url in
  if negb (response_ok (fst response))
  then throw (Error ("HTTP error " +:+ string_of_nat (fst response)))
  else
    let! data := response_json response in
    ret data.

(** [results.push(r)]. *)
Definition push_result (r : address_result) : stmt unit :=
  fun st =>
    (Normal tt,
     {| results := results st ++ [r]; total_balance := total_balance st;
        total_received := total_received st; total_sent := total_sent st;
        requests := requests st |}).

(** [total_balance += balance; total_received += received; total_sent += sent]. *)
Definition add_to_totals (balance received sent : float) : stmt unit :=
  fun st =>
    (Normal tt,
     {| results := results st;
        total_balance := (total_balance st + balance)%float;
        total_received := (total_received st + received)%float;
        total_sent := (total_sent st + sent)%float;
        requests := requests st |}).

(** [v / 1e8]. *)
Definition div_1e8 (E : engine) (v : jsval) : completion float :=
  match ToNumber E v with
  | Normal x => Normal (x / 1e8)%float
  | Throw e => Throw e
  end.

(** The constants declared in lines 23-26. *)
Record address_fields : Type := {
  balance : float;
  received : float;
  sent : float;
  transactions : json
}.

(** Lines 21-26: the expressions read from [data]; they touch no variable
    and any of them may throw. *)
Definition address_fields_of (E : engine) (data : json) (addr : string)
  : completion address_fields :=
  let? data_data := read E (VJson data) "data" in
  let? entry := read_computed E data_data addr in
  let? info := read E entry "address" in

  let? info_balance := read E info "balance" in
  let? balance := div_1e8 E info_balance in
  let? info_received := read E info "received" in
  let? received := div_1e8 E info_received in
  let? info_sent := read E info "sent" in
  let? sent := div_1e8 E info_sent in
  let? data_data' := read E (VJson data) "data" in
  let? entry' := read_computed E data_data' addr in
  let? entry_transactions := read E entry' "transactions" in
  let? transactions := slice_0_10 E entry_transactions in
  Normal {| balance := balance; received := received; sent := sent;
            transactions := transactions |}.

(** The body of the [try] block, lines 20-38. *)
Definition lookup_address (E : engine) (net : network) (addr : string) : stmt unit :=
  let! data := fetchAddressData net addr in
  let! fields := eval (address_fields_of E data addr) in

  do! add_to_totals (balance fields) (received fields) (sent fields) in

  push_result (AddressInfo addr (balance fields) (received fields) (sent fields)
                 (transactions fields)).

Record totals : Type := {
  totals_balance : float;
  totals_total_received : float;
  totals_total_sent : float
}.

Record wallet_info : Type := {
  wallet_addresses_info : list address_result;
  wallet_totals : totals
}.

Definition initial_wallet_state : wallet_state :=
  {| results := []; total_balance := 0; total_received := 0; total_sent := 0;
     requests := 0 |}.

(** The loop of [fetchWalletInfo], lines 18-45. *)
Definition wallet_loop (E : engine) (net : network) (addresses : list string)
  : stmt unit :=
  for_of addresses (fun addr =>
    try_catch (lookup_address E net addr)
      (fun error => push_result (AddressError addr (message error)))).

Definition fetchWalletInfo (E : engine) (net : network) (addresses : list string)
  : completion wallet_info :=
  match wallet_loop E net addresses initial_wallet_state with
  | (Normal _, st) =>
      Normal {| wallet_addresses_info := results st;
                wallet_totals :=
                  {| totals_balance := total_balance st;
                     totals_total_received := total_received st;
                     totals_total_sent := total_sent st |} |}
  | (Throw e, _) => Throw e
  end.

(* ===================================================================== *)
(** ** Requests *)

(** A value of [req.query]: a string, or what the query-string parser makes
    of repeated and bracketed keys. *)
Inductive qval : Type :=
| QStr (s : string)
| QArr (items : list qval)
| QObj (members : list (string * qval)).

(** A value held by a variable of the list handler, or bound to a statement:
    a Number or a query value. *)
Inductive value : Type :=
| Number (n : jsnum)
| Query (v : qval).

Record query : Type := {
  q_page : option qval;
  q_per_page : option qval;
  q_sort_by : option qval;
  q_sort_dir : option qval;
  q_priority : option qval;
  q_status : option qval;
  q_stage : option qval;
  q_tags : option qval
}.

(** Whether [ToString] of a query value completes.  An object of the parsed
    query that has a property of its own named toString cannot be converted:
    the value of that property is no function, the valueOf the object has or
    inherits yields no primitive either, and the conversion throws a
    TypeError.  An array is converted by joining the texts of its elements,
    so it converts when each of them does. *)
Fixpoint converts (v : qval) : bool :=
  match v with
  | QStr _ => true
  | QArr items => forallb converts items
  | QObj members =>
      negb (existsb (fun member => String.eqb (fst member) "toString") members)
  end.

(** The text of a query value that [converts]: an object without a toString
    of its own is rendered by Object.prototype.toString. *)
Fixpoint qval_to_string (v : qval) : string :=
  match v with
  | QStr s => s
  | QArr items => join "," (List.map qval_to_string items)
  | QObj _ => "[object Object]"
  end.

(** [ToString], for a value whose conversion completes. *)
Definition ToString (v : value) : string :=
  match v with
  | Number NaN => "NaN"
  | Number (Inf negative) => if negative then "-Infinity" else "Infinity"
  | Number (Num z) => if z <? 0 then "-" +:+ string_of_Z (- z) else string_of_Z z
  | Query q => qval_to_string q
  end.

(** A destructuring default, [{ x = d } = req.query]: [d] stands in for
    [undefined] only. *)
Definition or_default (raw : option qval) (d : value) : value :=
  match raw with
  | Some v => Query v
  | None => d
  end.

(** [if (req.query.x)]: an absent key and the empty string are falsy,
    everything else a query holds is truthy. *)
Definition truthy (raw : option qval) : bool :=
  match raw with
  | None | Some (QStr EmptyString) => false
  | Some _ => true
  end.

(** [allowed.includes(v)] for an array of strings: only a string equal to a
    member is found. *)
Definition includes (allowed : list string) (v : value) : bool :=
  match v with
  | Query (QStr s) => existsb (String.eqb s) allowed
  | _ => false
  end.

Definition validSortBy : list string :=
  ["last_updated"; "priority"; "percent_funded"; "date"].

Definition validSortDir : list string := ["asc"; "desc"].

Definition sortBySafe (q : query) : string :=
  let sort_by := or_default (q_sort_by q) (Query (QStr "last_updated")) in
  if includes validSortBy sort_by then ToString sort_by else "last_updated".

Definition sortDirSafe (q : query) : string :=
  let sort_dir := or_default (q_sort_dir q) (Query (QStr "desc")) in
  if includes validSortDir sort_dir then ToString sort_dir else "desc".

(** [const limit = Math.min(parseInt(per_page, 10) || 10, 100)]. *)
Definition limit (q : query) : jsnum :=
  let per_page := or_default (q_per_page q) (Number (Num 10)) in
  Math_min (js_or (parseInt (ToString per_page)) (Num 10)) (Num 100).

(** [parseInt(page, 10)], which the response reports as [current_page]. *)
Definition current_page (q : query) : jsnum :=
  let page := or_default (q_page q) (Number (Num 1)) in
  parseInt (ToString page).

(** [const offset = (parseInt(page, 10) - 1) * limit]. *)
Definition offset (q : query) : jsnum :=
  js_mul (js_sub (current_page q) (Num 1)) (limit q).

(** [conditions], [values] and [idx] of lines 256-258. *)
Record filter_state : Type := {
  conditions : list string;
  values : list value;
  idx : nat
}.

(** [if (req.query.x) { conditions.push(text(`$${idx++}`)); values.push(req.query.x); }] *)
Definition add_filter (raw : option qval) (text : string -> string)
  (st : filter_state) : filter_state :=
  match raw with
  | Some v =>
      if truthy raw then
        {| conditions := conditions st ++ [text ("$" +:+ string_of_nat (idx st))];
           values := values st ++ [Query v];
           idx := S (idx st) |}
      else st
  | None => st
  end.

(** Lines 256-275. *)
Definition filters (q : query) : filter_state :=
  let st := {| conditions := ["visibility = 'PUBLIC'"]; values := []; idx := 1 |} in
  let st := add_filter (q_priority q) (fun p => "priority = " +:+ p) st in
  let st := add_filter (q_status q) (fun p => "status = " +:+ p) st in
  let st := add_filter (q_stage q) (fun p => "stage = " +:+ p) st in
  add_filter (q_tags q) (fun p => "tags && string_to_array(" +:+ p +:+ ", ',')") st.

Definition whereClause (q : query) : string := join " AND " (conditions (filters q)).

(** The text and the values of the first statement, lines 280-283. *)
Definition count_sql (q : query) : string :=
  "SELECT COUNT(*) FROM cards WHERE " +:+ whereClause q.

Definition count_values (q : query) : list value := values (filters q).

(** The text and the values of the second statement, lines 287-290. *)
Definition page_sql (q : query) : string :=
  "SELECT * FROM cards WHERE " +:+ whereClause q
  +:+ " ORDER BY " +:+ sortBySafe q +:+ " " +:+ sortDirSafe q
  +:+ " LIMIT $" +:+ string_of_nat (idx (filters q))
  +:+ " OFFSET $" +:+ string_of_nat (S (idx (filters q))).

Definition page_values (q : query) : list value :=
  values (filters q) ++ [Number (limit q); Number (offset q)].

Definition funding_sql : string :=
  "
      SELECT card_id, stage, funding_requested
      FROM card_stage_funding
    ".

Definition detail_sql : string :=
  "SELECT * FROM cards WHERE id = $1 AND visibility = 'PUBLIC'".

(* ===================================================================== *)
(** ** The database *)

(** A row of [cards] as the handlers use it: the columns they read ([None]
    is SQL NULL) and the other columns, which pass through to the response. *)
Record card : Type := {
  id : string;
  visibility : string;
  wallet_addresses : option (list string);
  other_columns : list (string * json)
}.

(** A row of [SELECT card_id, stage, funding_requested FROM card_stage_funding];
    [None] is SQL NULL, and a numeric column arrives as text. *)
Record funding_row : Type := {
  card_id : option string;
  stage : option string;
  funding_requested : option string
}.

(** PostgreSQL behind [pool.query]: the two tables in the order the server
    returns their rows, and the server's part in evaluating a statement.
    The statements of one request see the same tables. *)
Record database : Type := {
  cards : list card;
  card_stage_funding : list funding_row;
  (** the error with which the server rejects a statement, if it does
      (connection lost, a value that is no input of the column's type) *)
  failure : string -> list value -> option exn;
  (** whether a row satisfies the WHERE clause of the list statements *)
  where_holds : string -> list value -> card -> bool;
  (** [id = $1] *)
  id_equals : value -> card -> bool;
  (** [ORDER BY column direction]: whether row [a] may stand before [b] *)
  precedes : string -> string -> card -> card -> bool;
  (** a table has fewer than 2^53 rows: PostgreSQL stores a table in at most
      2^32 pages of at most 2^15 bytes, and a row takes more than 2^4 *)
  cards_fit : Z.of_nat (length cards) < 2 ^ 53
}.

Fixpoint insert_sorted (le : card -> card -> bool) (x : card) (l : list card)
  : list card :=
  match l with
  | [] => [x]
  | y :: rest => if le x y then x :: l else y :: insert_sorted le x rest
  end.

Definition order_by (le : card -> card -> bool) (rows : list card) : list card :=
  fold_right (insert_sorted le) [] rows.

(** The rows of [cards] that satisfy the list handler's WHERE clause, which
    refers to the filter values only; both list statements use it. *)
Definition matching (db : database) (q : query) : list card :=
  List.filter (where_holds db (whereClause q) (count_values q)) (cards db).

(** [await pool.query(text, values)] where the statement yields [rows]. *)
Definition pool_query {R} (db : database) (text : string) (vals : list value)
  (rows : list R) : completion (list R) :=
  match failure db text vals with
  | Some e => Throw e
  | None => Normal rows
  end.

(** The counting statement: one row whose [count] is a bigint, delivered
    as text. *)
Definition query_count (db : database) (q : query) : completion (list string) :=
  pool_query db (count_sql q) (count_values q)
    [string_of_nat (length (matching db q))].

(** A LIMIT or OFFSET value the server accepts: a non-negative integer of
    its type bigint.  PostgreSQL raises an error for a negative one, for one
    from 2^63 on (out of range, or written with an exponent from 10^21 on),
    and for NaN or an infinity, which reach it as text that is no integer. *)
Definition row_count (n : jsnum) : option nat :=
  match n with
  | Num z => if (0 <=? z) && (z <? 2 ^ 63) then Some (Z.to_nat z) else None
  | _ => None
  end.

(** [SELECT * ... ORDER BY ... LIMIT ... OFFSET ...]. *)
Definition query_page (db : database) (q : query) : completion (list card) :=
  match row_count (limit q), row_count (offset q) with
  | Some n, Some k =>
      pool_query db (page_sql q) (page_values q)
        (firstn n (skipn k
           (order_by (precedes db (sortBySafe q) (sortDirSafe q)) (matching db q))))
  | None, _ => Throw (Error "LIMIT is no bigint from 0 on")
  | _, None => Throw (Error "OFFSET is no bigint from 0 on")
  end.

Definition query_funding (db : database) : completion (list funding_row) :=
  pool_query db funding_sql [] (card_stage_funding db).

(** [SELECT * FROM cards WHERE id = $1 AND visibility = 'PUBLIC']. *)
Definition query_detail (db : database) (req_id : string) : completion (list card) :=
  pool_query db detail_sql [Query (QStr req_id)]
    (List.filter
       (fun c => id_equals db (Query (QStr req_id)) c
                 && String.eqb (visibility c) "PUBLIC")
       (cards db)).

(* ===================================================================== *)
(** ** Responses *)

Record stage_entry : Type := {
  entry_stage : option string;
  entry_funding_requested : option string;
  currency : string;
  note : option string
}.

(** [{...card, stage_funding, total_funding_requested}]. *)
Record card_with_funding : Type := {
  card_columns : card;
  stage_funding : list stage_entry;
  total_funding_requested : string
}.

Record pagination : Type := {
  pagination_current_page : jsnum;
  per_page : jsnum;
  total_pages : jsnum
}.

Inductive wallet_field : Type :=
| NoWalletField
| WalletInfo (info : wallet_info)        (* [wallet_info: walletInfo] *)
| WalletInfoError (text : string).       (* [wallet_info_error: ...] *)

Inductive body : Type :=
| CardList (p : pagination) (cards_with_funding : list card_with_funding)
| CardDetail (c : card) (wallet : wallet_field)
| ErrorBody (error : string).

Record response : Type := {
  status_code : nat;
  cache_control : string;
  response_body : body
}.

Definition respond (code : nat) (b : body) : response :=
  {| status_code := code; cache_control := "public, max-age=30";
     response_body := b |}.

(** What becomes of a request to an async handler: it sends a response, or
    it throws outside its [try] block, so that its promise is rejected and
    nothing is sent. *)
Inductive reply : Type :=
| Sent (r : response)
| Rejected (e : exn).

Coercion Sent : response >-> reply.

(* ===================================================================== *)
(** ** GET /api/v1/cards *)

(** The property key a value of [card_id] becomes. *)
Definition property_key (v : option string) : string := default "null" v.

(** The object pushed in lines 302-307.  The statement selects neither
    currency nor note, so [row.currency || 'ZEC'] is 'ZEC' and
    [row.note || null] is null. *)
Definition entry_of_row (row : funding_row) : stage_entry :=
  {| entry_stage := stage row;
     entry_funding_requested := funding_requested row;
     currency := "ZEC";
     note := None |}.

(** One turn of the loop of lines 298-309 over the object [stageFundingMap],
    a map from property keys to arrays.  A key that the empty object inherits
    (its value is truthy and is no array) gets no array of its own, and
    [push] on it throws. *)
Definition add_funding_row (E : engine) (m : gmap string (list stage_entry))
  (row : funding_row) : completion (gmap string (list stage_entry)) :=
  let key := property_key (card_id row) in
  let m :=
    match m !! key with
    | Some _ => m
    | None => if has_builtin_property E (JObj []) key then m else <[key := []]> m
    end in
  match m !! key with
  | Some entries => Normal (<[key := (entries ++ [entry_of_row row])%list]> m)
  | None => Throw (TypeError (type_error_message E (NotAFunction "push")))
  end.

Fixpoint stageFundingMap_from (E : engine) (rows : list funding_row)
  (m : gmap string (list stage_entry))
  : completion (gmap string (list stage_entry)) :=
  match rows with
  | [] => Normal m
  | row :: rest =>
      let? m' := add_funding_row E m row in
      stageFundingMap_from E rest m'
  end.

Definition stageFundingMap (E : engine) (rows : list funding_row)
  : completion (gmap string (list stage_entry)) :=
  stageFundingMap_from E rows ∅.

(** [parseFloat(s.funding_requested || 0)]. *)
Definition requested_amount (s : stage_entry) : float :=
  match entry_funding_requested s with
  | Some text =>
      if String.eqb text "" then parseFloat (ToString (Number (Num 0)))
      else parseFloat text
  | None => parseFloat (ToString (Number (Num 0)))
  end.

(** [stageEntries.reduce((sum, s) => sum + parseFloat(...), 0)]. *)
Definition sum_requested (stageEntries : list stage_entry) : float :=
  fold_left (fun sum s => (sum + requested_amount s)%float) stageEntries 0%float.

(** The callback of [result.rows.map], lines 312-323. *)
Definition attach_funding (E : engine) (m : gmap string (list stage_entry))
  (c : card) : completion card_with_funding :=
  let? stageEntries :=
    match m !! id c with
    | Some entries => Normal entries
    | None =>
        if has_builtin_property E (JObj []) (id c)
        then Throw (TypeError (type_error_message E (NotAFunction "reduce")))
        else Normal []
    end in
  let totalRequested := toFixed (number_to_string E) (sum_requested stageEntries) 8 in
  Normal {| card_columns := c;
            stage_funding := stageEntries;
            total_funding_requested := totalRequested |}.

Fixpoint map_rows {A B} (f : A -> completion B) (rows : list A)
  : completion (list B) :=
  match rows with
  | [] => Normal []
  | r :: rest =>
      let? b := f r in
      let? bs := map_rows f rest in
      Normal (b :: bs)
  end.

(** The [try] block of the list handler, lines 280-333. *)
Definition list_cards_try (E : engine) (db : database) (q : query)
  : completion body :=
  let? totalResult := query_count db q in
  let? count :=
    match totalResult with
    | row :: _ => Normal row
    | [] => Throw (TypeError (type_error_message E (ReadOfNullish false "count")))
    end in
  let totalRows := parseInt count in
  let totalPages := Math_ceil_div totalRows (limit q) in
  let? result := query_page db q in
  let? stageFundingResult := query_funding db in
  let? stageFundingMap := stageFundingMap E stageFundingResult in
  let? cardsWithFunding := map_rows (attach_funding E stageFundingMap) result in
  Normal (CardList {| pagination_current_page := current_page q;
                      per_page := limit q;
                      total_pages := totalPages |}
                   cardsWithFunding).

(** The [try] block and its [catch] clause, lines 279-337. *)
Definition list_cards_answer (E : engine) (db : database) (q : query)
  : response :=
  match list_cards_try E db q with
  | Normal b => respond 200 b
  | Throw _ => respond 500 (ErrorBody "Internal server error")
  end.

(** [parseInt(v, 10)] starts by converting [v] to text. *)
Definition conversion (E : engine) (raw : option qval) : completion unit :=
  match raw with
  | Some v =>
      if converts v then Normal tt
      else Throw (TypeError (type_error_message E NotPrimitive))
  | None => Normal tt
  end.

(** Lines 248-249 stand before the [try]: the two calls of [parseInt] convert
    per_page and then page. *)
Definition paging_conversions (E : engine) (q : query) : completion unit :=
  let? _ := conversion E (q_per_page q) in
  conversion E (q_page q).

Definition list_cards (E : engine) (db : database) (q : query) : reply :=
  match paging_conversions E q with
  | Normal _ => Sent (list_cards_answer E db q)
  | Throw e => Rejected e
  end.

(* ===================================================================== *)
(** ** GET /api/v1/cards/:id *)

Definition card_detail (E : engine) (db : database) (net : network)
  (req_id : string) : response :=
  match query_detail db req_id with
  | Throw _ => respond 500 (ErrorBody "Internal server error")
  | Normal [] => respond 404 (ErrorBody "Not Found")
  | Normal (c :: _) =>
      match wallet_addresses c with
      | Some ((_ :: _) as addresses) =>
          match fetchWalletInfo E net addresses with
          | Normal walletInfo => respond 200 (CardDetail c (WalletInfo walletInfo))
          | Throw _ =>
              respond 200 (CardDetail c (WalletInfoError "Failed to retrieve wallet info"))
          end
      | _ => respond 200 (CardDetail c NoWalletField)
      end
  end.

(* ===================================================================== *)
(** ** An engine and a database to run requests with *)

(** V8's wording of the TypeErrors. *)
Definition v8_message (t : type_error) : string :=
  match t with
  | ReadOfNullish is_null property =>
      "Cannot read properties of " +:+ (if is_null then "null" else "undefined")
      +:+ " (reading '" +:+ property +:+ "')"
  | NotAFunction property => property +:+ " is not a function"
  | NotPrimitive => "Cannot convert object to primitive value"
  end.

Definition object_prototype_names : list string :=
  ["constructor"; "__proto__"; "hasOwnProperty"; "isPrototypeOf";
   "propertyIsEnumerable"; "toLocaleString"; "toString"; "valueOf";
   "__defineGetter__"; "__defineSetter__"; "__lookupGetter__"; "__lookupSetter__"].

(** An engine for the concrete runs: V8's messages, the property names of
    Object.prototype and the length of arrays and strings.  The runs never
    reach its two conversions (their amounts stay below 10^21 and their
    balances are JSON numbers or absent), which are left constant. *)
Definition sample_engine : engine :=
  {| number_to_string := fun _ => "1e+21";
     type_error_message := v8_message;
     composite_to_number := fun _ => Normal nan;
     has_builtin_property := fun receiver name =>
       existsb (String.eqb name) object_prototype_names
       || match receiver with
          | JArr _ | JStr _ => String.eqb name "length"
          | _ => false
          end |}.

Definition no_query : query :=
  {| q_page := None; q_per_page := None; q_sort_by := None; q_sort_dir := None;
     q_priority := None; q_status := None; q_stage := None; q_tags := None |}.

(* ===================================================================== *)
(** ** Vocabulary of the properties *)

(** The filter keys the handler treats as present are the same in both
    requests ([truthy] is the handler's own test, [if (req.query.x)]). *)
Definition same_filters_present (q1 q2 : query) : Prop :=
  truthy (q_priority q1) = truthy (q_priority q2)
  /\ truthy (q_status q1) = truthy (q_status q2)
  /\ truthy (q_stage q1) = truthy (q_stage q2)
  /\ truthy (q_tags q1) = truthy (q_tags q2).

Definition present_value (raw : option qval) : list value :=
  match raw with
  | Some v => if truthy raw then [Query v] else []
  | None => []
  end.

(** The WHERE clause written out for the filters that are present: the
    visibility predicate, then one predicate for each filter present, in the
    order priority, status, stage, tags, their placeholders numbered from 1
    on. *)
Definition clause_for (priority status stage tags : bool) : string :=
  let number (earlier : list bool) : string :=
    string_of_nat (S (length (List.filter Datatypes.id earlier))) in
  "visibility = 'PUBLIC'"
  +:+ (if priority then " AND priority = $" +:+ number [] else "")
  +:+ (if status then " AND status = $" +:+ number [priority] else "")
  +:+ (if stage then " AND stage = $" +:+ number [priority; status] else "")
  +:+ (if tags
       then " AND tags && string_to_array($"
            +:+ number [priority; status; stage] +:+ ", ',')"
       else "").

(** How many of the four filters are present. *)
Definition filters_present (q : query) : nat :=
  length (List.filter Datatypes.id
            [truthy (q_priority q); truthy (q_status q); truthy (q_stage q);
             truthy (q_tags q)]).

(** The values of the filters that are present, in the order priority,
    status, stage, tags. *)
Definition present_values (q : query) : list value :=
  present_value (q_priority q) ++ present_value (q_status q)
  ++ present_value (q_stage q) ++ present_value (q_tags q).

(** A raw sort input that is one of the allowed strings. *)
Definition recognized (allowed : list string) (raw : option qval) : bool :=
  match raw with
  | Some (QStr s) => existsb (String.eqb s) allowed
  | _ => false
  end.

Definition with_page (raw : option qval) (q : query) : query :=
  {| q_page := raw; q_per_page := q_per_page q; q_sort_by := q_sort_by q;
     q_sort_dir := q_sort_dir q; q_priority := q_priority q;
     q_status := q_status q; q_stage := q_stage q; q_tags := q_tags q |}.

Definition with_per_page (raw : option qval) (q : query) : query :=
  {| q_page := q_page q; q_per_page := raw; q_sort_by := q_sort_by q;
     q_sort_dir := q_sort_dir q; q_priority := q_priority q;
     q_status := q_status q; q_stage := q_stage q; q_tags := q_tags q |}.

Definition with_sort_by (raw : option qval) (q : query) : query :=
  {| q_page := q_page q; q_per_page := q_per_page q; q_sort_by := raw;
     q_sort_dir := q_sort_dir q; q_priority := q_priority q;
     q_status := q_status q; q_stage := q_stage q; q_tags := q_tags q |}.

Definition with_sort_dir (raw : option qval) (q : query) : query :=
  {| q_page := q_page q; q_per_page := q_per_page q; q_sort_by := q_sort_by q;
     q_sort_dir := raw; q_priority := q_priority q;
     q_status := q_status q; q_stage := q_stage q; q_tags := q_tags q |}.

Definition internal_server_error : response :=
  respond 500 (ErrorBody "Internal server error").

Definition not_found : response := respond 404 (ErrorBody "Not Found").

(** What [fetchAddressData] makes of one outcome of its request. *)
Definition address_data (o : fetch_outcome) : completion json :=
  match o with
  | FetchRejected error => Throw error
  | FetchResponse status body =>
      if response_ok status then
        match body with
        | BodyJson data => Normal data
        | BodyUnreadable error => Throw error
        end
      else Throw (Error ("HTTP error " +:+ string_of_nat status))
  end.

(** What the [try] block makes of one outcome of its request. *)
Definition lookup (E : engine) (o : fetch_outcome) (addr : string)
  : completion address_fields :=
  let? data := address_data o in
  address_fields_of E data addr.

(** The element of [results] for an address whose request ended in [o]. *)
Definition entry_of (E : engine) (o : fetch_outcome) (addr : string)
  : address_result :=
  match lookup E o addr with
  | Normal f => AddressInfo addr (balance f) (received f) (sent f) (transactions f)
  | Throw error => AddressError addr (message error)
  end.

Definition address_of (r : address_result) : string :=
  match r with
  | AddressInfo address _ _ _ _ | AddressError address _ => address
  end.

Definition balance_of (r : address_result) : option float :=
  match r with
  | AddressInfo _ x _ _ _ => Some x
  | AddressError _ _ => None
  end.

Definition received_of (r : address_result) : option float :=
  match r with
  | AddressInfo _ _ x _ _ => Some x
  | AddressError _ _ => None
  end.

Definition sent_of (r : address_result) : option float :=
  match r with
  | AddressInfo _ _ _ x _ => Some x
  | AddressError _ _ => None
  end.

(** The sum, from [start] and in list order, of a field over the entries
    that have it: the entries of the addresses that succeeded. *)
Definition sum_from (start : float) (field : address_result -> option float)
  (rs : list address_result) : float :=
  fold_left (fun acc r => match field r with
                          | Some x => (acc + x)%float
                          | None => acc
                          end) rs start.

(** The own property [name] of a JSON value, [undefined] if it has none. *)
Definition member (j : json) (name : string) : jsval :=
  match j with
  | JObj members =>
      match own_property members name with
      | Some v => VJson v
      | None => VUndefined
      end
  | _ => VUndefined
  end.

(** The parsed body lets lines 21-26 run to their end: [data.data] is there,
    [data.data[addr]] has an [address] that is not null, each of balance,
    received and sent converts to some Number (a missing one to NaN), and
    [transactions] is an array or a string. *)
Definition readable (E : engine) (data : json) (addr : string) : Prop :=
  exists d entry info,
    member data "data" = VJson d
    /\ read_computed E (VJson d) addr = Normal (VJson entry)
    /\ member entry "address" = VJson info /\ info <> JNull
    /\ (exists x, ToNumber E (member info "balance") = Normal x)
    /\ (exists x, ToNumber E (member info "received") = Normal x)
    /\ (exists x, ToNumber E (member info "sent") = Normal x)
    /\ ((exists items, member entry "transactions" = VJson (JArr items))
        \/ (exists s, member entry "transactions" = VJson (JStr s))).

(** The structure the explorer documents: under [data], under the address,
    an [address] object with numeric balance, received and sent, and a
    [transactions] array. *)
Definition expected_structure (data : json) (addr : string)
  (b r s : float) (txs : list json) : Prop :=
  exists d entry info,
    member data "data" = VJson d
    /\ member d addr = VJson entry
    /\ member entry "address" = VJson info
    /\ member info "balance" = VJson (JNum b)
    /\ member info "received" = VJson (JNum r)
    /\ member info "sent" = VJson (JNum s)
    /\ member entry "transactions" = VJson (JArr txs).

(** A card for which the detail query finds nothing: no row has the id, or
    rows have it and none of them is PUBLIC. *)
Definition unknown_id (db : database) (req_id : string) : Prop :=
  forall c, In c (cards db) -> id_equals db (Query (QStr req_id)) c = false.

Definition private_id (db : database) (req_id : string) : Prop :=
  (exists c, In c (cards db) /\ id_equals db (Query (QStr req_id)) c = true)
  /\ forall c, In c (cards db) -> id_equals db (Query (QStr req_id)) c = true ->
               visibility c <> "PUBLIC".

(** The group of a card: the rows of [card_stage_funding] whose [card_id]
    names it, in table order, as the entries the response carries. *)
Definition group_of (rows : list funding_row) (key : string) : list stage_entry :=
  List.map entry_of_row
    (List.filter (fun row => String.eqb (property_key (card_id row)) key) rows).

(** The rows of the funding table that belong to a card, in table order. *)
Definition rows_of_card (rows : list funding_row) (key : string)
  : list funding_row :=
  List.filter (fun row => String.eqb (property_key (card_id row)) key) rows.

(** What [parseFloat] reads from a funding_requested, a NULL or empty one
    counting as 0. *)
Definition amount_read (text : option string) : float :=
  match text with
  | Some ((String _ _) as t) => parseFloat t
  | _ => 0%float
  end.

(** The binary64 sum of amounts, added one after the other starting from 0. *)
Definition binary64_sum (amounts : list float) : float :=
  fold_left PrimFloat.add amounts 0%float.

(** The number of units of 10^-8 that a decimal text stands for: digits,
    then optionally a point and up to 8 digits. *)
Definition units_of_decimal (text : string) : Z :=
  let '(int_part, _, after_int) := scan_digits text None 0 in
  let '(frac_part, frac_digits, _) :=
    match after_int with
    | String "." rest => scan_digits rest None 0
    | _ => (None, O, after_int)
    end in
  default 0 int_part * 10 ^ 8
  + default 0 frac_part * 10 ^ (8 - Z.of_nat frac_digits).

(** A number of units of 10^-8 written with exactly 8 fractional digits. *)
Definition decimal_of_units (units : Z) : string :=
  let frac := string_of_Z (units mod 10 ^ 8) in
  string_of_Z (units / 10 ^ 8) +:+ "." +:+ zeros (8 - String.length frac)
  +:+ frac.

(** The decimal total of the specification: the sum of the amounts as
    decimal numbers, a NULL one counting as 0, formatted with exactly 8
    fractional digits. *)
Definition decimal_total (amounts : list (option string)) : string :=
  decimal_of_units
    (fold_right (fun amount sum =>
                   match amount with
                   | Some text => units_of_decimal text
                   | None => 0
                   end + sum) 0 amounts).

Definition is_digit (c : ascii) : bool :=
  match digit_value c with
  | Some _ => true
  | None => false
  end.

Fixpoint all_digits (s : string) : bool :=
  match s with
  | EmptyString => true
  | String c rest => is_digit c && all_digits rest
  end.

(** Text of the form [-]digits.digits with exactly [f] fractional digits. *)
Definition fixed_notation (f : nat) (text : string) : Prop :=
  exists sign int frac,
    text = sign +:+ int +:+ "." +:+ frac
    /\ (sign = "" \/ sign = "-")
    /\ int <> "" /\ all_digits int = true
    /\ String.length frac = f /\ all_digits frac = true.

(** A finite amount below 10^21 in magnitude. *)
Definition fixed_range (x : float) : bool :=
  match Prim2SF x with
  | S754_zero _ => true
  | S754_finite _ m e => negb ((0 <=? e) && (10 ^ 21 <=? Z.pos m * 2 ^ e))
  | _ => false
  end.

(** The entries for [addresses] when their requests are the [k]-th, the
    [k+1]-th, ... issued. *)
Fixpoint entries_from (E : engine) (net : network) (k : nat)
  (addresses : list string) : list address_result :=
  match addresses with
  | [] => []
  | addr :: rest =>
      entry_of E (net k (address_url addr)) addr :: entries_from E net (S k) rest
  end.

(** A response body whose address object has no balance, received or sent. *)
Definition incomplete_body : json :=
  JObj [("data",
         JObj [("t1abc",
                JObj [("address", JObj []); ("transactions", JArr [])])])].

Definition always (o : fetch_outcome) : network := fun _ _ => o.

(* ===================================================================== *)
(** ** Vocabulary of the further properties *)

(** The numbers of the placeholders [$n] of a statement text, in the order
    in which they appear. *)
Fixpoint placeholders (text : string) : list nat :=
  match text with
  | String "$" rest =>
      match scan_digits rest None 0 with
      | (Some n, _, _) => Z.to_nat n :: placeholders rest
      | (None, _, _) => placeholders rest
      end
  | String _ rest => placeholders rest
  | EmptyString => []
  end.

(** A property name that the empty object literal [{}] inherits: reading it
    from [stageFundingMap] yields a built-in value, not [undefined]. *)
Definition inherited (E : engine) (key : string) : bool :=
  has_builtin_property E (JObj []) key.

(** The rows that match the filters of a request, in the order of its
    ORDER BY. *)
Definition ordered (db : database) (q : query) : list card :=
  order_by (precedes db (sortBySafe q) (sortDirSafe q)) (matching db q).

Definition starts_with_digit (s : string) : bool :=
  match s with
  | String c _ => is_digit c
  | EmptyString => false
  end.

(** The rows the detail statement selects: the id is the requested one and
    the row is PUBLIC. *)
Definition public_with_id (db : database) (req_id : string) (c : card) : bool :=
  id_equals db (Query (QStr req_id)) c && String.eqb (visibility c) "PUBLIC".

(** An entry whose transactions, if it has any, are an array of at most
    ten elements or a text of at most ten characters. *)
Definition at_most_ten_transactions (r : address_result) : Prop :=
  match r with
  | AddressInfo _ _ _ _ (JArr items) => (length items <= 10)%nat
  | AddressInfo _ _ _ _ (JStr s) => (String.length s <= 10)%nat
  | AddressInfo _ _ _ _ _ => False
  | AddressError _ _ => True
  end.

(** The network as it answers after [k] requests were issued. *)
Definition later (k : nat) (net : network) : network :=
  fun n url => net (k + n)%nat url.

(** Every lookup of [addresses] throws, the [i]-th being request number
    [k + i]. *)
Definition all_lookups_fail (E : engine) (net : network) (k : nat)
  (addresses : list string) : Prop :=
  forall i addr, addresses !! i = Some addr ->
    exists e, lookup E (net (k + i)%nat (address_url addr)) addr = Throw e.

(* ===================================================================== *)
(** ** Sample data for the concrete runs *)

Definition card_1 : card :=
  {| id := "4c999973-8929-4f51-8964-21f2677935e4"; visibility := "PUBLIC";
     wallet_addresses := Some ["t1abc"; "t1def"];
     other_columns := [("title", JStr "Wallet")] |}.

Definition card_2 : card :=
  {| id := "0b0e7a1c-52d1-4a8f-9f43-6f1c57a0c2d9"; visibility := "PRIVATE";
     wallet_addresses := None;
     other_columns := [("title", JStr "Draft")] |}.

Definition card_3 : card :=
  {| id := "7d3a2f10-0c55-4e0b-8a0e-3a1b2c4d5e6f"; visibility := "PUBLIC";
     wallet_addresses := None;
     other_columns := [("title", JStr "Explorer")] |}.

Definition card_4 : card :=
  {| id := "a81bc81b-dead-4e5d-abff-90865d1e13b1"; visibility := "PUBLIC";
     wallet_addresses := Some [];
     other_columns := [("title", JStr "Docs")] |}.

Definition funding (card : card) (stage_name amount : string) : funding_row :=
  {| card_id := Some (id card); stage := Some stage_name;
     funding_requested := Some amount |}.

(** A database that executes every statement, compares ids as text, knows
    the visibility predicate of a WHERE clause (it is not asked about
    filters below) and keeps table order under ORDER BY. *)
Definition sample_db : database :=
  {| cards := [card_1; card_2; card_3; card_4];
     card_stage_funding :=
       [funding card_1 "ANALYZE" "1.5"; funding card_3 "DESIGN" "0.1";
        funding card_1 "DESIGN" "2.25"; funding card_3 "DEVELOP" "0.2"];
     failure := fun _ _ => None;
     where_holds := fun _ _ c => String.eqb (visibility c) "PUBLIC";
     id_equals := fun v c =>
       match v with
       | Query (QStr s) => String.eqb s (id c)
       | _ => false
       end;
     precedes := fun _ _ _ _ => true;
     cards_fit := eq_refl |}.

Definition two_per_page : query := with_per_page (Some (QStr "2")) no_query.

Definition sample_entry (stage_name amount : string) : stage_entry :=
  {| entry_stage := Some stage_name; entry_funding_requested := Some amount;
     currency := "ZEC"; note := None |}.

(** The body of the response to [two_per_page] on [sample_db]. *)
Definition first_page : pagination :=
  {| pagination_current_page := Num 1; per_page := Num 2; total_pages := Num 2 |}.

Definition first_page_cards : list card_with_funding :=
  [{| card_columns := card_1;
      stage_funding := [sample_entry "ANALYZE" "1.5"; sample_entry "DESIGN" "2.25"];
      total_funding_requested := "3.75000000" |};
   {| card_columns := card_3;
      stage_funding := [sample_entry "DESIGN" "0.1"; sample_entry "DEVELOP" "0.2"];
      total_funding_requested := "0.30000000" |}].

(** The explorer's answer for an address with twelve transactions. *)
Definition explorer_body (addr : string) (b r s : float) : json :=
  JObj [("data",
         JObj [(addr,
                JObj [("address",
                       JObj [("type", JStr "pubkeyhash"); ("balance", JNum b);
                             ("received", JNum r); ("sent", JNum s)]);
                      ("transactions",
                       JArr (List.map JStr
                               ["tx01"; "tx02"; "tx03"; "tx04"; "tx05"; "tx06";
                                "tx07"; "tx08"; "tx09"; "tx10"; "tx11"; "tx12"]))])]);
        ("context", JObj [("code", JNum 200)])].

(** A network on which the first request is answered with status 500 and
    the second with the balances of t1def. *)
Definition sample_network : network :=
  fun n url =>
    match n with
    | O => FetchResponse 500 (BodyUnreadable (Error "Unexpected token <"))
    | _ => FetchResponse 200
             (BodyJson (explorer_body "t1def" 150000000 250000000 100000000))
    end.

(** A database like [db] whose funding table holds [rows]. *)
Definition with_funding (rows : list funding_row) (db : database) : database :=
  {| cards := cards db; card_stage_funding := rows; failure := failure db;
     where_holds := where_holds db; id_equals := id_equals db;
     precedes := precedes db; cards_fit := cards_fit db |}.

(** A network on which the first request is answered with a body that has
    no balances and every later one with the balances of t1def. *)
Definition incomplete_network : network :=
  fun n url =>
    match n with
    | O => FetchResponse 200 (BodyJson incomplete_body)
    | _ => FetchResponse 200
             (BodyJson (explorer_body "t1def" 150000000 250000000 100000000))
    end.

(** What [fetchWalletInfo] makes of the addresses of [card_1] on
    [sample_network]. *)
Definition sample_wallet : wallet_info :=
  {| wallet_addresses_info :=
       [AddressError "t1abc" "HTTP error 500";
        AddressInfo "t1def" 1.5 2.5 1
          (JArr (List.map JStr
                   ["tx01"; "tx02"; "tx03"; "tx04"; "tx05"; "tx06";
                    "tx07"; "tx08"; "tx09"; "tx10"]))];
     wallet_totals :=
       {| totals_balance := 1.5; totals_total_received := 2.5;
          totals_total_sent := 1 |} |}.

(** A funding table in which an amount is the numeric value NaN, and the
    cards of the first page of two over it. *)
Definition funding_with_NaN : list funding_row :=
  [funding card_1 "ANALYZE" "1.5"; funding card_3 "DESIGN" "0.1";
   funding card_3 "DEVELOP" "NaN"].

Definition first_page_cards_with_NaN : list card_with_funding :=
  [{| card_columns := card_1;
      stage_funding := [sample_entry "ANALYZE" "1.5"];
      total_funding_requested := "1.50000000" |};
   {| card_columns := card_3;
      stage_funding := [sample_entry "DESIGN" "0.1"; sample_entry "DEVELOP" "NaN"];
      total_funding_requested := "NaN" |}].

(** A funding table in which a [card_id] is the name of a property of
    Object.prototype. *)
Definition funding_with_inherited_name : list funding_row :=
  [funding card_1 "ANALYZE" "1.5";
   {| card_id := Some "constructor"; stage := Some "DESIGN";
      funding_requested := Some "1" |}].


(** A funding table with three rows for [card_1], and the cards of the first
    page of two over it. *)
Definition funding_of_three : list funding_row :=
  [funding card_1 "ANALYZE" "1.5"; funding card_3 "DESIGN" "0.1";
   funding card_1 "DESIGN" "2.25"; funding card_1 "DEVELOP" "0.25"].

Definition first_page_cards_of_three : list card_with_funding :=
  [{| card_columns := card_1;
      stage_funding := [sample_entry "ANALYZE" "1.5"; sample_entry "DESIGN" "2.25";
                        sample_entry "DEVELOP" "0.25"];
      total_funding_requested := "4.00000000" |};
   {| card_columns := card_3;
      stage_funding := [sample_entry "DESIGN" "0.1"];
      total_funding_requested := "0.10000000" |}].

(** Two amounts of the column type numeric(20,8) whose binary64 sum is not
    their decimal sum. *)
Definition funding_of_large_amounts : list funding_row :=
  [funding card_1 "ANALYZE" "15052911.70296048";
   funding card_1 "DESIGN" "18745055.96553749"].

Definition first_page_cards_of_large_amounts : list card_with_funding :=
  [{| card_columns := card_1;
      stage_funding := [sample_entry "ANALYZE" "15052911.70296048";
                        sample_entry "DESIGN" "18745055.96553749"];
      total_funding_requested := "33797967.66849796" |};
   {| card_columns := card_3;
      stage_funding := [];
      total_funding_requested := "0.00000000" |}].
(** * Properties *)

(** ** Decimal text *)

Example parseInt_samples :
  parseInt "42" = Num 42 /\ parseInt "  -7px" = Num (-7)
  /\ parseInt "abc" = NaN /\ parseInt "" = NaN /\ parseInt "0" = Num 0
  /\ parseInt "1,2" = Num 1 /\ parseInt "+15.9" = Num 15
  /\ parseInt "0x1f" = Num 0 /\ parseInt "[object Object]" = NaN.
Proof. repeat split; reflexivity. Qed.

Example string_of_nat_samples :
  string_of_nat 0 = "0" /\ string_of_nat 7 = "7" /\ string_of_nat 404 = "404"
  /\ string_of_nat 1000 = "1000".
Proof. repeat split; reflexivity. Qed.

Example parseFloat_samples :
  parseFloat "1.5" = 1.5%float /\ parseFloat "  -2.25e2xyz" = (-225)%float
  /\ parseFloat ".5" = 0.5%float /\ parseFloat "5." = 5%float
  /\ parseFloat "1e" = 1%float /\ parseFloat "abc" = nan
  /\ parseFloat "." = nan /\ parseFloat "-Infinity" = neg_infinity
  /\ parseFloat "0.1" = 0x1.999999999999ap-4%float
  /\ parseFloat "1e400" = infinity.
Proof. repeat split; vm_compute; reflexivity. Qed.

Example toFixed_samples :
  toFixed (number_to_string sample_engine) (1.5 + 2.25) 8 = "3.75000000"
  /\ toFixed (number_to_string sample_engine) 0 8 = "0.00000000"
  /\ toFixed (number_to_string sample_engine) (-0) 8 = "0.00000000"
  /\ toFixed (number_to_string sample_engine)
       (parseFloat "0.1" + parseFloat "0.2") 8 = "0.30000000"
  /\ toFixed (number_to_string sample_engine) 2.5 0 = "3"
  /\ toFixed (number_to_string sample_engine) 1.25 1 = "1.3"
  /\ toFixed (number_to_string sample_engine) nan 8 = "NaN"
  /\ toFixed (number_to_string sample_engine) (-1.5) 8 = "-1.50000000".
Proof. repeat split; vm_compute; reflexivity. Qed.

Lemma append_cons a s t : String a s +:+ t = String a (s +:+ t).
Proof. reflexivity. Qed.

Lemma append_empty_r s : s +:+ "" = s.
Proof.
  induction s as [| a s IH]; [reflexivity |]. now rewrite append_cons, IH.
Qed.

Lemma append_assoc s : forall t u, (s +:+ t) +:+ u = s +:+ (t +:+ u).
Proof.
  induction s as [| c s IH]; intros t u; [reflexivity |].
  now rewrite !append_cons, IH.
Qed.

(** Settles a goal about a digit [d] with [0 <= d < 10] by running [tac] on
    each of the ten values. *)
Ltac each_digit d tac :=
  let H := fresh "H" in
  assert (H : d = 0 \/ d = 1 \/ d = 2 \/ d = 3 \/ d = 4 \/ d = 5 \/ d = 6
              \/ d = 7 \/ d = 8 \/ d = 9); [lia |];
  repeat (destruct H as [-> | H]; [tac |]); subst; tac.

Lemma digit_value_digit_char d :
  0 <= d < 10 -> digit_value (digit_char d) = Some d.
Proof. intros Hd. each_digit d ltac:(idtac; reflexivity). Qed.

Lemma digit_char_plain d :
  0 <= d < 10 ->
  is_white_space (digit_char d) = false
  /\ digit_char d <> "-"%char /\ digit_char d <> "+"%char.
Proof. intros Hd. each_digit d ltac:(idtac; repeat split; discriminate). Qed.

(** The value [scan_digits] returns does not depend on the count it starts
    from. *)
Lemma scan_digits_value s : forall acc c c',
  (scan_digits s acc c).1.1 = (scan_digits s acc c').1.1.
Proof.
  induction s as [| ch s IH]; intros acc c c'; cbn [scan_digits]; [reflexivity |].
  destruct (digit_value ch); [apply IH | reflexivity].
Qed.

Lemma Z_digits_step fuel z acc :
  Z_digits (S fuel) z acc
  = if z <? 10 then String (digit_char (z mod 10)) acc
    else Z_digits fuel (z / 10) (String (digit_char (z mod 10)) acc).
Proof. reflexivity. Qed.

Lemma scan_digits_step d rest acc c :
  0 <= d < 10 ->
  scan_digits (String (digit_char d) rest) acc c
  = scan_digits rest (Some (10 * default 0 acc + d)) (S c).
Proof.
  intros Hd. cbn [scan_digits]. now rewrite digit_value_digit_char.
Qed.

Lemma Z_digits_head fuel : forall z rest,
  0 <= z ->
  exists d tail, 0 <= d < 10 /\ Z_digits (S fuel) z rest = String (digit_char d) tail.
Proof.
  induction fuel as [| fuel IH]; intros z rest Hz; rewrite Z_digits_step.
  - exists (z mod 10), rest. split; [apply Z.mod_pos_bound; lia |].
    destruct (z <? 10); reflexivity.
  - destruct (z <? 10) eqn:Hlt.
    + exists (z mod 10), rest. split; [apply Z.mod_pos_bound; lia | reflexivity].
    + apply IH. apply Z.div_pos; lia.
Qed.

(** Reading back the digits just written. *)
Lemma scan_Z_digits fuel : forall z rest c,
  0 <= z < 2 ^ Z.of_nat (S fuel) ->
  (scan_digits (Z_digits (S fuel) z rest) None c).1.1
  = (scan_digits rest (Some z) c).1.1.
Proof.
  induction fuel as [| fuel IH]; intros z rest c Hz; rewrite Z_digits_step.
  - change (2 ^ Z.of_nat 1) with 2 in Hz.
    assert (Hlt : (z <? 10) = true) by (apply Z.ltb_lt; lia).
    rewrite Hlt, scan_digits_step by (apply Z.mod_pos_bound; lia).
    rewrite Z.mod_small by lia. apply scan_digits_value.
  - destruct (z <? 10) eqn:Hlt.
    + apply Z.ltb_lt in Hlt.
      rewrite scan_digits_step by (apply Z.mod_pos_bound; lia).
      rewrite Z.mod_small by lia. apply scan_digits_value.
    + apply Z.ltb_ge in Hlt.
      rewrite IH.
      * rewrite scan_digits_step by (apply Z.mod_pos_bound; lia).
        change (default 0 (Some (z / 10))) with (z / 10).
        replace (10 * (z / 10) + z mod 10) with z
          by (rewrite (Z.div_mod z 10) at 1; lia).
        apply scan_digits_value.
      * split; [apply Z.div_pos; lia |].
        apply Z.div_lt_upper_bound; [lia |].
        rewrite Nat2Z.inj_succ, Z.pow_succ_r in Hz by lia. lia.
Qed.

Lemma string_of_Z_fuel z :
  0 <= z -> z < 2 ^ Z.of_nat (S (Z.to_nat (Z.log2 z))).
Proof.
  intros Hz. rewrite Nat2Z.inj_succ, Z2Nat.id by apply Z.log2_nonneg.
  destruct (Z.eq_dec z 0) as [-> | Hnz]; [reflexivity |].
  apply Z.log2_spec. lia.
Qed.

(** [Number_of_Z] rounds as the library's [binary_round] does, at 2^53,
    at halfway cases, at the largest finite double and beyond. *)
Example Number_of_Z_rounds_as_binary_round :
  forallb (fun z => jsnum_eqb (Number_of_Z z) (binary_round_of_Z z))
    rounding_samples = true.
Proof. vm_compute. reflexivity. Qed.

Example Number_of_Z_above_2_53 :
  Number_of_Z 9007199254740993 = Num 9007199254740992
  /\ Number_of_Z (10 ^ 23) = Num 99999999999999991611392
  /\ Number_of_Z (10 ^ 309) = Inf false
  /\ Number_of_Z (- 10 ^ 309) = Inf true.
Proof. repeat split; vm_compute; reflexivity. Qed.

(** An integer below 2^53 in magnitude is a Number as it is. *)
Lemma Number_of_Z_small z : Z.abs z < 2 ^ 53 -> Number_of_Z z = Num z.
Proof.
  intros Hz. unfold Number_of_Z. cbv zeta.
  apply Z.ltb_lt in Hz. now rewrite Hz.
Qed.

(** [parseInt] reads the digits that [String(n)] writes as the Number
    for [n]. *)
Lemma parseInt_string_of_Z z :
  0 <= z -> parseInt (string_of_Z z) = Number_of_Z z.
Proof.
  intros Hz. unfold parseInt, string_of_Z.
  destruct (Z_digits_head (Z.to_nat (Z.log2 z)) z "" Hz) as (d & tail & Hd & Heq).
  pose proof (scan_Z_digits (Z.to_nat (Z.log2 z)) z "" 0
                (conj Hz (string_of_Z_fuel z Hz))) as Hscan.
  rewrite Heq in *.
  destruct (digit_char_plain d Hd) as (Hws & Hminus & Hplus).
  cbn [trim_start]. rewrite Hws.
  assert (Hsign :
    match String (digit_char d) tail with
    | String "-" rest => (-1, rest)
    | String "+" rest => (1, rest)
    | _ => (1, String (digit_char d) tail)
    end = (1, String (digit_char d) tail)).
  { destruct (digit_char d) as [[] [] [] [] [] [] [] []];
      try reflexivity; congruence. }
  rewrite Hsign.
  destruct (scan_digits (String (digit_char d) tail) None 0) as [[v n] r].
  cbn in Hscan. subst v. f_equal; lia.
Qed.

(** A row count below 2^53, which PostgreSQL delivers as decimal text, is
    read back exactly. *)
Lemma parseInt_count n :
  Z.of_nat n < 2 ^ 53 -> parseInt (string_of_nat n) = Num (Z.of_nat n).
Proof.
  intros Hn. unfold string_of_nat. rewrite parseInt_string_of_Z by lia.
  apply Number_of_Z_small. lia.
Qed.

(* ===================================================================== *)
(** ** Fixed notation *)

Lemma is_digit_digit_char d : 0 <= d < 10 -> is_digit (digit_char d) = true.
Proof. intros Hd. unfold is_digit. now rewrite digit_value_digit_char. Qed.

Lemma all_digits_app s t :
  all_digits (s +:+ t) = all_digits s && all_digits t.
Proof.
  induction s as [| c s IH]; [reflexivity |].
  rewrite append_cons. cbn [all_digits]. now rewrite IH, andb_assoc.
Qed.

Lemma length_app s t :
  String.length (s +:+ t) = (String.length s + String.length t)%nat.
Proof.
  induction s as [| c s IH]; [reflexivity |].
  rewrite append_cons. cbn [String.length]. now rewrite IH.
Qed.

Lemma all_digits_zeros n : all_digits (zeros n) = true.
Proof. induction n as [| n IH]; [reflexivity |]. exact IH. Qed.

Lemma length_zeros n : String.length (zeros n) = n.
Proof. induction n as [| n IH]; [reflexivity |]. cbn. now rewrite IH. Qed.

Lemma all_digits_substring s : forall a b,
  all_digits s = true -> all_digits (substring a b s) = true.
Proof.
  induction s as [| c s IH]; intros a b Hs.
  - destruct a, b; reflexivity.
  - cbn [all_digits] in Hs. apply andb_prop in Hs as [Hc Hs].
    destruct a as [| a]; cbn [substring].
    + destruct b as [| b]; [reflexivity |].
      cbn [all_digits]. now rewrite Hc, IH.
    + now apply IH.
Qed.

Lemma length_substring s : forall a b,
  (a + b <= String.length s)%nat -> String.length (substring a b s) = b.
Proof.
  induction s as [| c s IH]; intros a b Hlen; cbn [String.length] in Hlen.
  - assert (a = O /\ b = O) as [-> ->] by lia. reflexivity.
  - destruct a as [| a]; cbn [substring].
    + destruct b as [| b]; [reflexivity |].
      cbn [String.length]. rewrite IH; [reflexivity | lia].
    + apply IH. lia.
Qed.

Lemma all_digits_Z_digits fuel : forall z acc,
  0 <= z -> all_digits acc = true -> all_digits (Z_digits fuel z acc) = true.
Proof.
  induction fuel as [| fuel IH]; intros z acc Hz Hacc; [exact Hacc |].
  rewrite Z_digits_step.
  assert (Hd : all_digits (String (digit_char (z mod 10)) acc) = true).
  { cbn [all_digits]. rewrite is_digit_digit_char, Hacc;
      [reflexivity | apply Z.mod_pos_bound; lia]. }
  destruct (z <? 10); [exact Hd |].
  apply IH; [apply Z.div_pos; lia | exact Hd].
Qed.

Lemma string_of_Z_digits z :
  0 <= z ->
  all_digits (string_of_Z z) = true /\ (1 <= String.length (string_of_Z z))%nat.
Proof.
  intros Hz. unfold string_of_Z. split.
  - now apply all_digits_Z_digits.
  - destruct (Z_digits_head (Z.to_nat (Z.log2 z)) z "" Hz) as (d & tail & _ & ->).
    cbn [String.length]. lia.
Qed.

(** The digits [toFixed] writes for a non-negative real below 10^21. *)
Lemma fixed_digits_notation m e f :
  0 <= m -> (0 < f)%nat ->
  exists int frac,
    fixed_digits m e f = int +:+ "." +:+ frac
    /\ int <> "" /\ all_digits int = true
    /\ String.length frac = f /\ all_digits frac = true.
Proof.
  intros Hm Hf. unfold fixed_digits.
  set (n := if 0 <=? e then m * 10 ^ Z.of_nat f * 2 ^ e
            else (2 * (m * 10 ^ Z.of_nat f) + 2 ^ (- e)) / 2 ^ (1 - e)).
  assert (Hn : 0 <= n).
  { subst n. destruct (0 <=? e) eqn:He.
    - apply Z.leb_le in He.
      apply Z.mul_nonneg_nonneg; [apply Z.mul_nonneg_nonneg |]; try lia;
        apply Z.pow_nonneg; lia.
    - apply Z.leb_gt in He. apply Z.div_pos; [| apply Z.pow_pos_nonneg; lia].
      assert (0 <= 10 ^ Z.of_nat f) by (apply Z.pow_nonneg; lia).
      assert (0 <= 2 ^ (- e)) by (apply Z.pow_nonneg; lia). nia. }
  destruct (string_of_Z_digits n Hn) as [Hdig Hlen].
  set (digits := string_of_Z n) in *.
  set (padded := if (String.length digits <=? f)%nat
                 then zeros (f + 1 - String.length digits) +:+ digits
                 else digits).
  assert (Hpad : all_digits padded = true /\ (f + 1 <= String.length padded)%nat).
  { subst padded. destruct (String.length digits <=? f)%nat eqn:Hk.
    - apply Nat.leb_le in Hk.
      rewrite all_digits_app, all_digits_zeros, Hdig, length_app, length_zeros.
      split; [reflexivity | lia].
    - apply Nat.leb_gt in Hk. split; [exact Hdig | lia]. }
  destruct Hpad as [Hpd Hpl].
  assert (Hf0 : (f =? 0)%nat = false) by (apply Nat.eqb_neq; lia).
  rewrite Hf0.
  exists (substring 0 (String.length padded - f) padded),
         (substring (String.length padded - f) f padded).
  split; [reflexivity |]. repeat split.
  - intros Hempty.
    assert (Hl : String.length (substring 0 (String.length padded - f) padded)
                 = (String.length padded - f)%nat)
      by (apply length_substring; lia).
    rewrite Hempty in Hl. cbn in Hl. lia.
  - now apply all_digits_substring.
  - apply length_substring. lia.
  - now apply all_digits_substring.
Qed.

(** A finite amount below 10^21 is printed by [toFixed(8)] in fixed notation
    with exactly 8 fractional digits. *)
Lemma toFixed_notation nts x :
  fixed_range x = true -> fixed_notation 8 (toFixed nts x 8).
Proof.
  unfold fixed_range, toFixed, fixed_notation.
  destruct (Prim2SF x) as [s | s | | s m e]; try discriminate.
  - intros _. exists "", "0", "00000000". repeat split; auto.
  - intros Hr. apply negb_true_iff in Hr. rewrite Hr.
    destruct (fixed_digits_notation (Z.pos m) e 8 ltac:(lia) ltac:(lia))
      as (int & frac & -> & Hint & Hdi & Hlen & Hdf).
    exists (if s then "-" else ""), int, frac. repeat split; auto.
    destruct s; auto.
Qed.

(* ===================================================================== *)
(** ** The query text of the list endpoint *)

Lemma add_filter_text raw1 raw2 text st1 st2 :
  truthy raw1 = truthy raw2 ->
  conditions st1 = conditions st2 -> idx st1 = idx st2 ->
  conditions (add_filter raw1 text st1) = conditions (add_filter raw2 text st2)
  /\ idx (add_filter raw1 text st1) = idx (add_filter raw2 text st2).
Proof.
  intros Ht Hc Hi. unfold add_filter.
  destruct raw1 as [v1 |], raw2 as [v2 |];
    try rewrite Ht; try rewrite <- Ht;
    try (destruct (truthy (Some v2)) eqn:E2; try discriminate);
    try (destruct (truthy (Some v1)) eqn:E1; try discriminate);
    cbn [conditions idx]; rewrite ?Hc, ?Hi; auto.
Qed.

Lemma add_filter_values raw text st :
  values (add_filter raw text st) = (values st ++ present_value raw)%list.
Proof.
  unfold add_filter, present_value.
  destruct raw as [v |]; [destruct (truthy (Some v)) |];
    cbn [values]; now rewrite ?app_nil_r.
Qed.

Lemma add_filter_keeps_first raw text st c rest :
  conditions st = c :: rest ->
  exists rest', conditions (add_filter raw text st) = c :: rest'.
Proof.
  intros Hc. unfold add_filter.
  destruct raw as [v |]; [destruct (truthy (Some v)) |]; cbn [conditions];
    rewrite Hc; eauto.
Qed.

Lemma filters_text q1 q2 :
  same_filters_present q1 q2 ->
  conditions (filters q1) = conditions (filters q2)
  /\ idx (filters q1) = idx (filters q2).
Proof.
  intros (Hp & Hs & Hg & Ht). unfold filters.
  repeat (apply add_filter_text; [assumption | |]);
    try reflexivity.
  all: repeat match goal with
       | |- conditions (add_filter _ _ _) = conditions (add_filter _ _ _) =>
           eapply proj1; apply add_filter_text; [assumption | |]
       | |- idx (add_filter _ _ _) = idx (add_filter _ _ _) =>
           eapply proj2; apply add_filter_text; [assumption | |]
       end; reflexivity.
Qed.

Lemma filters_values q : values (filters q) = present_values q.
Proof.
  unfold filters, present_values. rewrite !add_filter_values. cbn [values].
  now rewrite <- !app_assoc.
Qed.

Lemma filters_first q :
  exists rest, conditions (filters q) = "visibility = 'PUBLIC'" :: rest.
Proof.
  unfold filters.
  repeat match goal with
  | |- exists rest, conditions (add_filter ?raw ?text ?st) = ?c :: rest =>
      cut (exists rest, conditions st = c :: rest);
      [intros [r Hr]; exact (add_filter_keeps_first raw text st c r Hr) |]
  end.
  cbn [conditions]. eauto.
Qed.

Lemma join_first sep c rest : exists tail, join sep (c :: rest) = c +:+ tail.
Proof.
  destruct rest as [| d rest]; cbn [join].
  - exists "". now rewrite append_empty_r.
  - eauto.
Qed.

Lemma length_present_value raw :
  length (present_value raw) = if truthy raw then 1%nat else 0%nat.
Proof.
  unfold present_value. destruct raw as [v |]; [| reflexivity].
  now destruct (truthy (Some v)).
Qed.

(** A request with the same filters present, all of them the text x. *)
Lemma filters_of_presence q :
  let given (raw : option qval) := if truthy raw then Some (QStr "x") else None in
  conditions (filters q)
  = conditions (filters {| q_page := None; q_per_page := None; q_sort_by := None;
                           q_sort_dir := None;
                           q_priority := given (q_priority q);
                           q_status := given (q_status q);
                           q_stage := given (q_stage q);
                           q_tags := given (q_tags q) |})
  /\ idx (filters q)
     = idx (filters {| q_page := None; q_per_page := None; q_sort_by := None;
                       q_sort_dir := None;
                       q_priority := given (q_priority q);
                       q_status := given (q_status q);
                       q_stage := given (q_stage q);
                       q_tags := given (q_tags q) |}).
Proof.
  cbv zeta. apply filters_text. unfold same_filters_present.
  cbn [q_priority q_status q_stage q_tags].
  repeat split; now destruct (truthy _).
Qed.

Lemma clause_of_presence q :
  whereClause q
  = clause_for (truthy (q_priority q)) (truthy (q_status q))
      (truthy (q_stage q)) (truthy (q_tags q))
  /\ idx (filters q) = S (filters_present q).
Proof.
  destruct (filters_of_presence q) as [Hc Hi]. cbv zeta in Hc, Hi.
  unfold whereClause, filters_present. rewrite Hc, Hi.
  destruct (truthy (q_priority q)), (truthy (q_status q)),
    (truthy (q_stage q)), (truthy (q_tags q)); split; reflexivity.
Qed.

(** C1.  Two requests to the list endpoint in which the same filters among
    priority, status, stage and tags are present (as the handler tests
    presence: the key is given and is not the empty string) yield the same
    WHERE clause, the same counting statement and, for the same effective
    sort, the same page statement.  The clause is the predicate
    [visibility = 'PUBLIC'] followed by one predicate with a numbered
    placeholder for each filter present, and both statements contain it: the
    counting statement is its SELECT ... FROM cards WHERE followed by the
    clause, the page statement its SELECT ... FROM cards WHERE followed by
    the clause, the effective sort and the placeholders of limit and offset.  The filter values appear
    only in the bound values: those of the counting statement are the
    present filter values in order, those of the page statement the same
    followed by limit and offset. *)
Theorem where_clause_depends_on_presence_only (q1 q2 : query) :
  same_filters_present q1 q2 ->
  whereClause q1 = whereClause q2
  /\ count_sql q1 = count_sql q2
  /\ (sortBySafe q1 = sortBySafe q2 -> sortDirSafe q1 = sortDirSafe q2 ->
      page_sql q1 = page_sql q2)
  /\ (exists rest, whereClause q1 = "visibility = 'PUBLIC'" +:+ rest)
  /\ count_values q1 = present_values q1
  /\ page_values q1
     = (present_values q1 ++ [Number (limit q1); Number (offset q1)])%list
  /\ whereClause q1
     = clause_for (truthy (q_priority q1)) (truthy (q_status q1))
         (truthy (q_stage q1)) (truthy (q_tags q1))
  /\ count_sql q1
     = "SELECT COUNT(*) FROM cards WHERE "
       +:+ clause_for (truthy (q_priority q1)) (truthy (q_status q1))
             (truthy (q_stage q1)) (truthy (q_tags q1))
  /\ page_sql q1
     = "SELECT * FROM cards WHERE "
       +:+ clause_for (truthy (q_priority q1)) (truthy (q_status q1))
             (truthy (q_stage q1)) (truthy (q_tags q1))
       +:+ " ORDER BY " +:+ sortBySafe q1 +:+ " " +:+ sortDirSafe q1
       +:+ " LIMIT $" +:+ string_of_nat (1 + filters_present q1)
       +:+ " OFFSET $" +:+ string_of_nat (2 + filters_present q1)
  /\ (exists rest,
        count_sql q1
        = "SELECT COUNT(*) FROM cards WHERE visibility = 'PUBLIC'" +:+ rest)
  /\ (exists rest,
        page_sql q1
        = "SELECT * FROM cards WHERE visibility = 'PUBLIC'" +:+ rest).
Proof.
  intros Hsame. destruct (filters_text q1 q2 Hsame) as [Hc Hi].
  assert (Hw : whereClause q1 = whereClause q2)
    by (unfold whereClause; now rewrite Hc).
  destruct (clause_of_presence q1) as [Hclause Hidx].
  assert (Hcount : count_sql q1
                   = "SELECT COUNT(*) FROM cards WHERE "
                     +:+ clause_for (truthy (q_priority q1)) (truthy (q_status q1))
                           (truthy (q_stage q1)) (truthy (q_tags q1)))
    by (unfold count_sql; now rewrite Hclause).
  assert (Hpage : page_sql q1
                  = "SELECT * FROM cards WHERE "
                    +:+ clause_for (truthy (q_priority q1)) (truthy (q_status q1))
                          (truthy (q_stage q1)) (truthy (q_tags q1))
                    +:+ " ORDER BY " +:+ sortBySafe q1 +:+ " " +:+ sortDirSafe q1
                    +:+ " LIMIT $" +:+ string_of_nat (1 + filters_present q1)
                    +:+ " OFFSET $" +:+ string_of_nat (2 + filters_present q1))
    by (unfold page_sql; now rewrite Hclause, Hidx).
  split; [exact Hw |].
  split; [unfold count_sql; now rewrite Hw |].
  split; [intros Hby Hdir; unfold page_sql; now rewrite Hw, Hby, Hdir, Hi |].
  split.
  { unfold whereClause. destruct (filters_first q1) as [rest ->].
    apply join_first. }
  split; [apply filters_values |].
  split; [unfold page_values; now rewrite filters_values |].
  split; [exact Hclause |]. split; [exact Hcount |]. split; [exact Hpage |].
  split.
  - rewrite Hcount. unfold clause_for. cbv zeta. eexists. reflexivity.
  - rewrite Hpage. unfold clause_for. cbv zeta. eexists. reflexivity.
Qed.

Example page_statement_sample :
  let q := {| q_page := Some (QStr "2"); q_per_page := None;
              q_sort_by := Some (QStr "date"); q_sort_dir := Some (QStr "up");
              q_priority := Some (QStr "HIGH"); q_status := Some (QStr "");
              q_stage := None; q_tags := Some (QStr "privacy,communication") |} in
  count_sql q
  = "SELECT COUNT(*) FROM cards WHERE visibility = 'PUBLIC' AND priority = $1 AND tags && string_to_array($2, ',')"
  /\ page_sql q
     = "SELECT * FROM cards WHERE visibility = 'PUBLIC' AND priority = $1 AND tags && string_to_array($2, ',') ORDER BY date desc LIMIT $3 OFFSET $4"
  /\ page_values q
     = [Query (QStr "HIGH"); Query (QStr "privacy,communication");
        Number (Num 10); Number (Num 10)].
Proof. repeat split; reflexivity. Qed.

(* ===================================================================== *)
(** ** Sorting inputs *)

Lemma includes_recognized allowed raw d :
  recognized allowed raw = false ->
  raw <> None ->
  includes allowed (or_default raw d) = false.
Proof.
  intros Hr Hn. destruct raw as [[s | l | m] |]; try reflexivity;
    [exact Hr | congruence].
Qed.

Lemma sortBySafe_allowed q : In (sortBySafe q) validSortBy.
Proof.
  unfold sortBySafe.
  destruct (includes validSortBy _) eqn:Hin; [| left; reflexivity].
  destruct (q_sort_by q) as [[s | l | m] |]; unfold or_default, includes in *;
    cbn [ToString qval_to_string]; try discriminate.
  - apply existsb_exists in Hin as (x & Hx & Heq).
    apply String.eqb_eq in Heq. now subst.
  - left; reflexivity.
Qed.

Lemma sortDirSafe_allowed q : In (sortDirSafe q) validSortDir.
Proof.
  unfold sortDirSafe.
  destruct (includes validSortDir _) eqn:Hin; [| right; left; reflexivity].
  destruct (q_sort_dir q) as [[s | l | m] |]; unfold or_default, includes in *;
    cbn [ToString qval_to_string]; try discriminate.
  - apply existsb_exists in Hin as (x & Hx & Heq).
    apply String.eqb_eq in Heq. now subst.
  - right; left; reflexivity.
Qed.

Lemma sortBySafe_fallback q :
  recognized validSortBy (q_sort_by q) = false -> sortBySafe q = "last_updated".
Proof.
  intros Hr. unfold sortBySafe.
  destruct (q_sort_by q) as [[s | l | m] |];
    unfold or_default, includes, recognized in *; rewrite ?Hr; reflexivity.
Qed.

Lemma sortDirSafe_fallback q :
  recognized validSortDir (q_sort_dir q) = false -> sortDirSafe q = "desc".
Proof.
  intros Hr. unfold sortDirSafe.
  destruct (q_sort_dir q) as [[s | l | m] |];
    unfold or_default, includes, recognized in *; rewrite ?Hr; reflexivity.
Qed.

(* ===================================================================== *)
(** ** Limit, page and offset *)

Lemma Number_of_Z_cases z :
  (exists s, Number_of_Z z = Inf s) \/ exists z', Number_of_Z z = Num z'.
Proof.
  unfold Number_of_Z. cbv zeta.
  destruct (Z.abs z <? 2 ^ 53); [eauto |].
  destruct (2 ^ 1024 <=? _); eauto.
Qed.

Lemma parseInt_cases s :
  parseInt s = NaN \/ (exists b, parseInt s = Inf b) \/ exists z, parseInt s = Num z.
Proof.
  unfold parseInt.
  destruct (match trim_start s with
            | String "-" rest => (-1, rest)
            | String "+" rest => (1, rest)
            | _ => (1, trim_start s)
            end) as [sign s'].
  destruct (scan_digits s' None 0) as [[[v |] n] r]; [| now left].
  right. apply Number_of_Z_cases.
Qed.

(** The effective limit is never NaN, never zero and never above 100: it is
    an integer up to 100 other than 0, or -Infinity. *)
Lemma limit_range q :
  limit q = Inf true \/ exists z, limit q = Num z /\ z <> 0 /\ z <= 100.
Proof.
  unfold limit.
  destruct (parseInt_cases (ToString (or_default (q_per_page q) (Number (Num 10)))))
    as [-> | [[[|] ->] | [z ->]]].
  - right. exists 10. repeat split; lia.
  - now left.
  - right. exists 100. repeat split; lia.
  - right. destruct (Z.eq_dec z 0) as [-> | Hz].
    + exists 10. repeat split; lia.
    + exists (Z.min z 100). split; [| lia].
      destruct z; [congruence | reflexivity | reflexivity].
Qed.

Lemma limit_finite q l : limit q = Num l -> l <> 0 /\ l <= 100.
Proof.
  intros Hl. destruct (limit_range q) as [Hinf | (z & Hz & Hnz & Hle)];
    [congruence |].
  rewrite Hl in Hz. injection Hz as ->. now split.
Qed.

(** What [limit] is, by what [parseInt] makes of per_page: 100 above 100,
    10 for NaN and zero, the number itself otherwise, negative ones
    included. *)
Lemma limit_by_cases q :
  let parsed := parseInt (ToString (or_default (q_per_page q) (Number (Num 10)))) in
  (forall z, parsed = Num z -> 100 < z -> limit q = Num 100)
  /\ (parsed = NaN \/ parsed = Num 0 -> limit q = Num 10)
  /\ (forall z, parsed = Num z -> z <> 0 -> z <= 100 -> limit q = Num z)
  /\ (parsed = Inf false -> limit q = Num 100)
  /\ (parsed = Inf true -> limit q = Inf true).
Proof.
  cbv zeta. unfold limit. repeat split.
  - intros z -> Hz. destruct z; try lia. cbn [js_or Math_min]. f_equal. lia.
  - intros [-> | ->]; reflexivity.
  - intros z -> Hz Hle. destruct z; try lia; cbn [js_or Math_min]; f_equal; lia.
  - now intros ->.
  - now intros ->.
Qed.

(* ===================================================================== *)
(** ** Address lookups and the wallet aggregation *)

Section Wallet.

Context (E : engine) (net : network).

(** *** Reading the explorer's answer *)

Lemma read_member j name :
  j <> JNull -> read E (VJson j) name = Normal (member j name).
Proof. destruct j; intros Hj; try reflexivity. congruence. Qed.

Lemma read_some base name v :
  read E base name = Normal (VJson v) ->
  exists j, base = VJson j /\ j <> JNull /\ member j name = VJson v.
Proof.
  destruct base as [| | j]; try discriminate.
  destruct j; try discriminate; cbn [read member]; intros [= H];
    eexists; (split; [reflexivity | split; [discriminate |]]);
    cbn [member]; try discriminate.
  destruct (own_property members name); [now injection H as -> | discriminate].
Qed.

Lemma read_next base name name' :
  (exists v, read E base name = Normal v /\ exists w, read E v name' = Normal w) ->
  exists j i, base = VJson j /\ member j name = VJson i /\ i <> JNull.
Proof.
  intros (v & Hv & w & Hw).
  destruct v as [| | i]; try discriminate.
  - destruct base as [| | j]; try discriminate.
    destruct j; try discriminate. cbn [read] in Hv.
    destruct (own_property members name); discriminate.
  - destruct (read_some base name i Hv) as (j & -> & Hj & Hm).
    exists j, i. repeat split; try assumption.
    intros ->. discriminate.
Qed.

Lemma div_1e8_normal v y :
  div_1e8 E v = Normal y <-> exists x, ToNumber E v = Normal x /\ y = (x / 1e8)%float.
Proof.
  unfold div_1e8. destruct (ToNumber E v) as [x | e]; split.
  - intros [= <-]. eauto.
  - intros (x' & [= <-] & ->). reflexivity.
  - discriminate.
  - intros (x' & Hx & _). discriminate.
Qed.

Lemma slice_normal v t :
  slice_0_10 E v = Normal t <->
  (exists items, v = VJson (JArr items) /\ t = JArr (firstn 10 items))
  \/ (exists s, v = VJson (JStr s) /\ t = JStr (substring 0 10 s)).
Proof.
  split.
  - destruct v as [| | j]; try discriminate.
    destruct j; try discriminate; intros [= <-]; eauto.
  - intros [(items & -> & ->) | (s & -> & ->)]; reflexivity.
Qed.

(** Names the result of the first expression of a sequence that is known to
    run to its end. *)
Tactic Notation "first_step" hyp(H) "as" ident(x) ident(Hx) :=
  match type of H with
  | and_then ?c _ = Normal _ =>
      destruct c as [x | ?] eqn:Hx; [cbn [and_then] in H | discriminate]
  end.

(** Lines 21-26 run to their end exactly for a readable body. *)
Lemma address_fields_of_normal data addr :
  (exists f, address_fields_of E data addr = Normal f) <-> readable E data addr.
Proof.
  unfold address_fields_of, readable. split.
  - intros [f Hf].
    first_step Hf as data_data Hdd. first_step Hf as entry Hrc.
    first_step Hf as info Hinfo.
    first_step Hf as vb Hvb. first_step Hf as b Hb.
    first_step Hf as vr Hvr. first_step Hf as r Hr.
    first_step Hf as vs Hvs. first_step Hf as s Hs.
    first_step Hf as vt Hvt. first_step Hf as t Ht.
    destruct (read_next entry "address" "balance") as (je & ji & -> & Hji & Hnull);
      [eauto |].
    assert (Hje : je <> JNull) by (intros ->; discriminate).
    rewrite (read_member je), Hji in Hinfo by assumption.
    injection Hinfo as <-.
    assert (Hd : exists d, data_data = VJson d).
    { destruct data_data as [| | d]; try discriminate; eauto. }
    destruct Hd as [d ->].
    destruct (read_some (VJson data) "data" d Hdd) as (j & [= <-] & Hj & Hjd).
    rewrite (read_member ji) in Hvb, Hvr, Hvs by assumption.
    rewrite (read_member je) in Hvt by assumption.
    injection Hvb as <-. injection Hvr as <-. injection Hvs as <-.
    injection Hvt as <-.
    apply div_1e8_normal in Hb as (xb & Hxb & _).
    apply div_1e8_normal in Hr as (xr & Hxr & _).
    apply div_1e8_normal in Hs as (xs & Hxs & _).
    exists d, je, ji. repeat split; eauto.
    apply slice_normal in Ht as [(items & Hi & _) | (str & Hi & _)]; eauto.
  - intros (d & entry & info & Hd & Hrc & Hinfo & Hnull
            & [xb Hb] & [xr Hr] & [xs Hs] & Ht).
    assert (Hdata : data <> JNull) by (intros ->; discriminate).
    assert (Hentry : entry <> JNull) by (intros ->; discriminate).
    rewrite (read_member data) by assumption. rewrite Hd. cbn [and_then].
    rewrite Hrc. cbn [and_then].
    rewrite (read_member entry) by assumption. rewrite Hinfo. cbn [and_then].
    rewrite !(read_member info) by assumption. cbn [and_then].
    unfold div_1e8. rewrite Hb, Hr, Hs. cbn [and_then].
    rewrite (read_member entry) by assumption. cbn [and_then].
    destruct Ht as [[items ->] | [str ->]]; cbn [slice_0_10 and_then]; eauto.
Qed.

(** A body of the documented structure is read as documented. *)
Lemma address_fields_of_expected data addr b r s txs :
  expected_structure data addr b r s txs ->
  address_fields_of E data addr
  = Normal {| balance := (b / 1e8)%float; received := (r / 1e8)%float;
              sent := (s / 1e8)%float; transactions := JArr (firstn 10 txs) |}.
Proof.
  intros (d & entry & info & Hd & Hentry & Hinfo & Hb & Hr & Hs & Ht).
  assert (Hdata : data <> JNull) by (intros ->; discriminate).
  assert (Hd' : d <> JNull) by (intros ->; discriminate).
  assert (Hentry' : entry <> JNull) by (intros ->; discriminate).
  assert (Hinfo' : info <> JNull) by (intros ->; discriminate).
  assert (Hrc : read_computed E (VJson d) addr = Normal (VJson entry)).
  { destruct d; try discriminate. cbn [member] in Hentry. cbn [read_computed].
    destruct (own_property members addr); [now injection Hentry as -> | discriminate]. }
  unfold address_fields_of.
  rewrite (read_member data) by assumption. rewrite Hd. cbn [and_then].
  rewrite Hrc. cbn [and_then].
  rewrite !(read_member entry) by assumption. rewrite Hinfo. cbn [and_then].
  rewrite !(read_member info) by assumption. rewrite Hb, Hr, Hs, Ht.
  reflexivity.
Qed.

(** *** One lookup *)

Lemma fetchAddressData_outcome addr st :
  fetchAddressData net addr st
  = (address_data (net (requests st) (address_url addr)),
     {| results := results st; total_balance := total_balance st;
        total_received := total_received st; total_sent := total_sent st;
        requests := S (requests st) |}).
Proof.
  unfold fetchAddressData, bind, fetch, address_data.
  destruct (net (requests st) (address_url addr)) as [e | status [data | e]];
    [reflexivity | |]; cbn [fst snd negb];
    destruct (response_ok status); reflexivity.
Qed.

(** One run of the [try] block: nothing but the request count changes when
    it throws; totals and [results] change together when it does not. *)
Lemma lookup_address_outcome addr st :
  lookup_address E net addr st
  = match lookup E (net (requests st) (address_url addr)) addr with
    | Normal f =>
        (Normal tt,
         {| results := results st
                       ++ [AddressInfo addr (balance f) (received f) (sent f)
                             (transactions f)];
            total_balance := (total_balance st + balance f)%float;
            total_received := (total_received st + received f)%float;
            total_sent := (total_sent st + sent f)%float;
            requests := S (requests st) |})
    | Throw e =>
        (Throw e,
         {| results := results st; total_balance := total_balance st;
            total_received := total_received st; total_sent := total_sent st;
            requests := S (requests st) |})
    end.
Proof.
  unfold lookup_address, lookup, bind. rewrite fetchAddressData_outcome.
  destruct (address_data _) as [data | e]; cbn [and_then]; [| reflexivity].
  unfold eval. destruct (address_fields_of E data addr) as [f | e]; reflexivity.
Qed.

(** C8, as the code has it.  One address lookup (the request of
    [fetchAddressData] and lines 21-26 of the loop) throws exactly when the
    request is rejected, when the service answers with a status outside
    200-299 (the error then reads HTTP error and the status), when the body
    is not JSON, or when the parsed body is not [readable]: data.data or
    data.data[addr] is missing or null, its address is missing or null,
    balance, received or sent converts to no Number, or transactions is
    neither an array nor a string.  A balance, received or sent that is
    missing or not a number is no failure.  For a body of the documented
    structure the lookup records balance, received and sent each divided by
    10^8 and the first 10 transactions, all of them when there are at most
    10. *)
Theorem address_lookup_fails_exactly_when (addr : string) (st : wallet_state) :
  let o := net (requests st) (address_url addr) in
  let outcome := fst (lookup_address E net addr st) in
  ((exists e, outcome = Throw e) <->
   (exists e, o = FetchRejected e)
   \/ (exists status body,
        o = FetchResponse status body /\ response_ok status = false)
   \/ (exists status e,
        o = FetchResponse status (BodyUnreadable e) /\ response_ok status = true)
   \/ (exists status data,
        o = FetchResponse status (BodyJson data) /\ response_ok status = true
        /\ ~ readable E data addr))
  /\ (forall status body,
      o = FetchResponse status body -> response_ok status = false ->
      outcome = Throw (Error ("HTTP error " +:+ string_of_nat status)))
  /\ (forall status data b r s txs,
      o = FetchResponse status (BodyJson data) -> response_ok status = true ->
      expected_structure data addr b r s txs ->
      outcome = Normal tt
      /\ results (snd (lookup_address E net addr st))
         = (results st
            ++ [AddressInfo addr (b / 1e8)%float (r / 1e8)%float (s / 1e8)%float
                  (JArr (firstn 10 txs))])%list
      /\ (length (firstn 10 txs) <= 10)%nat
      /\ ((length txs <= 10)%nat -> firstn 10 txs = txs)).
Proof.
  cbv zeta. rewrite lookup_address_outcome. unfold lookup, address_data.
  destruct (net (requests st) (address_url addr)) as [e | status [data | e]].
  - cbn [and_then fst]. split; [split |]; [left | | split]; intros;
      eauto; congruence.
  - destruct (response_ok status) eqn:Hok; cbn [and_then].
    + split; [split | split].
      * intros [e He]. right; right; right. exists status, data.
        repeat split; try reflexivity; try assumption.
        intros Hread. apply address_fields_of_normal in Hread as [f Hf].
        rewrite Hf in He. discriminate.
      * intros [(e & He) | [(s' & b' & [= <- <-] & Hno)
                 | [(s' & e & He & _) | (s' & d' & [= <- <-] & _ & Hno)]]];
          try discriminate; try congruence.
        destruct (address_fields_of E data addr) as [f | e] eqn:Hf; cbn; eauto.
        exfalso. apply Hno. apply address_fields_of_normal. eauto.
      * intros s' b' [= <- <-]. congruence.
      * intros s' d' b r s txs [= <- <-] _ Hexp.
        rewrite (address_fields_of_expected data addr b r s txs Hexp).
        cbn [fst snd results balance received sent transactions].
        repeat split.
        -- apply firstn_le_length.
        -- intros Hlen. now apply firstn_all2.
    + cbn [fst]. split; [split | split].
      * intros _. right; left. eauto.
      * eauto.
      * intros s' b' [= <- <-] _. reflexivity.
      * intros s' d' b r s txs [= <- <-]. congruence.
  - destruct (response_ok status) eqn:Hok; cbn [and_then fst].
    + split; [split | split].
      * intros _. right; right; left. eauto.
      * eauto.
      * intros s' b' [= <- <-]. congruence.
      * intros; discriminate.
    + split; [split | split].
      * intros _. right; left. eauto.
      * eauto.
      * intros s' b' [= <- <-] _. reflexivity.
      * intros; discriminate.
Qed.

(** *** The loop *)

(** One turn of the loop. *)
Lemma wallet_turn addr st :
  try_catch (lookup_address E net addr)
    (fun error => push_result (AddressError addr (message error))) st
  = let r := entry_of E (net (requests st) (address_url addr)) addr in
    (Normal tt,
     {| results := results st ++ [r];
        total_balance := sum_from (total_balance st) balance_of [r];
        total_received := sum_from (total_received st) received_of [r];
        total_sent := sum_from (total_sent st) sent_of [r];
        requests := S (requests st) |}).
Proof.
  unfold try_catch, entry_of. rewrite lookup_address_outcome.
  destruct (lookup E _ addr) as [f | e]; reflexivity.
Qed.

Lemma sum_from_app start field rs rs' :
  sum_from start field (rs ++ rs') = sum_from (sum_from start field rs) field rs'.
Proof. unfold sum_from. apply fold_left_app. Qed.

Lemma wallet_loop_outcome addresses : forall st,
  wallet_loop E net addresses st
  = let rs := entries_from E net (requests st) addresses in
    (Normal tt,
     {| results := results st ++ rs;
        total_balance := sum_from (total_balance st) balance_of rs;
        total_received := sum_from (total_received st) received_of rs;
        total_sent := sum_from (total_sent st) sent_of rs;
        requests := (requests st + length addresses)%nat |}).
Proof.
  unfold wallet_loop.
  induction addresses as [| addr rest IH]; intros st; cbn [for_of entries_from].
  - cbv zeta. unfold ret. cbn [sum_from fold_left length].
    rewrite app_nil_r, Nat.add_0_r. now destruct st.
  - unfold bind at 1. rewrite wallet_turn. cbv beta iota zeta.
    rewrite IH. cbv zeta.
    cbn [results total_balance total_received total_sent requests length].
    rewrite <- app_assoc. cbn [app].
    change (entry_of E (net (requests st) (address_url addr)) addr
            :: entries_from E net (S (requests st)) rest)
      with ([entry_of E (net (requests st) (address_url addr)) addr]
            ++ entries_from E net (S (requests st)) rest)%list.
    rewrite !sum_from_app. do 2 f_equal. lia.
Qed.

Lemma entries_from_lookup addresses : forall k i addr,
  addresses !! i = Some addr ->
  entries_from E net k addresses !! i
  = Some (entry_of E (net (k + i)%nat (address_url addr)) addr).
Proof.
  induction addresses as [| a rest IH]; intros k i addr Hi; [discriminate |].
  destruct i as [| i]; cbn [entries_from].
  - rewrite lookup_cons in Hi. rewrite lookup_cons.
    injection Hi as ->. now rewrite Nat.add_0_r.
  - rewrite lookup_cons in Hi. rewrite lookup_cons.
    rewrite (IH (S k) i addr Hi). do 3 f_equal. lia.
Qed.

Lemma entries_from_addresses addresses : forall k,
  List.map address_of (entries_from E net k addresses) = addresses.
Proof.
  induction addresses as [| a rest IH]; intros k; cbn [entries_from List.map];
    [reflexivity |].
  rewrite IH. f_equal. unfold entry_of.
  destruct (lookup E _ a); reflexivity.
Qed.


(** C10.  [fetchWalletInfo] returns for every list of addresses, every
    engine and every behaviour of the network: whatever a lookup throws is
    caught in its own turn of the loop.  So the detail handler never takes
    the branch that attaches wallet_info_error. *)
Theorem wallet_info_error_is_unreachable (db : database) (req_id : string) :
  (forall addresses, exists w, fetchWalletInfo E net addresses = Normal w)
  /\ (forall c text,
      response_body (card_detail E db net req_id)
      <> CardDetail c (WalletInfoError text)).
Proof.
  assert (Htotal : forall addresses,
            exists w, fetchWalletInfo E net addresses = Normal w).
  { intros addresses. unfold fetchWalletInfo.
    rewrite wallet_loop_outcome. cbv zeta. eauto. }
  split; [exact Htotal |].
  intros c text. unfold card_detail.
  destruct (query_detail db req_id) as [[| c' rows] | e]; try discriminate.
  destruct (wallet_addresses c') as [[| a rest] |]; try discriminate.
  destruct (Htotal (a :: rest)) as [w ->]. discriminate.
Qed.

End Wallet.

(* ===================================================================== *)
(** ** The list endpoint *)

Section ListEndpoint.

Context (E : engine) (db : database).

(** *** Sort, page and limit reach the handler *)

(** The list handler reads the sort inputs through [sortBySafe] and
    [sortDirSafe] only. *)
Lemma list_cards_sort q q' :
  q_page q' = q_page q -> q_per_page q' = q_per_page q ->
  q_priority q' = q_priority q -> q_status q' = q_status q ->
  q_stage q' = q_stage q -> q_tags q' = q_tags q ->
  sortBySafe q' = sortBySafe q -> sortDirSafe q' = sortDirSafe q ->
  list_cards E db q' = list_cards E db q.
Proof.
  intros Hp Hpp Hpr Hst Hsg Htg Hby Hdir.
  unfold list_cards, paging_conversions, list_cards_answer, list_cards_try,
    query_count, query_page, matching, count_sql, page_sql, count_values,
    page_values, whereClause, filters, offset, current_page, limit.
  now rewrite Hp, Hpp, Hpr, Hst, Hsg, Htg, Hby, Hdir.
Qed.

(** A request whose per_page and page convert to text reaches the [try]
    block, and only such a request is answered. *)
Lemma list_cards_converted q :
  paging_conversions E q = Normal tt ->
  list_cards E db q = list_cards_answer E db q.
Proof. unfold list_cards. now intros ->. Qed.

Lemma list_cards_sent q r :
  list_cards E db q = Sent r ->
  paging_conversions E q = Normal tt /\ list_cards_answer E db q = r.
Proof.
  unfold list_cards.
  destruct (paging_conversions E q) as [[] | e]; [| discriminate].
  now intros [= <-].
Qed.

(** C9.  A raw sort_by that is not one of the strings last_updated,
    priority, percent_funded, date is replaced by last_updated, and a raw
    sort_dir that is not asc or desc is replaced by desc: the request is then
    answered exactly as the same request without that key, so the value
    rejects nothing.  The effective column and direction are always members
    of the allow-lists. *)
Theorem unrecognized_sort_falls_back (q : query) :
  (recognized validSortBy (q_sort_by q) = false ->
   sortBySafe q = "last_updated"
   /\ list_cards E db q = list_cards E db (with_sort_by None q))
  /\ (recognized validSortDir (q_sort_dir q) = false ->
      sortDirSafe q = "desc"
      /\ list_cards E db q = list_cards E db (with_sort_dir None q))
  /\ In (sortBySafe q) validSortBy
  /\ In (sortDirSafe q) validSortDir.
Proof.
  split; [| split; [| split]].
  - intros Hr. split; [now apply sortBySafe_fallback |].
    symmetry. apply list_cards_sort; try reflexivity.
    now rewrite (sortBySafe_fallback q Hr).
  - intros Hr. split; [now apply sortDirSafe_fallback |].
    symmetry. apply list_cards_sort; try reflexivity.
    now rewrite (sortDirSafe_fallback q Hr).
  - apply sortBySafe_allowed.
  - apply sortDirSafe_allowed.
Qed.

Lemma list_cards_rejected_page q :
  paging_conversions E q = Normal tt ->
  row_count (limit q) = None \/ row_count (offset q) = None ->
  list_cards E db q = internal_server_error.
Proof.
  intros Hconv Hbad. rewrite (list_cards_converted q Hconv). f_equal.
  unfold list_cards_answer, list_cards_try.
  destruct (query_count db q) as [[| count rest] | e]; cbn [and_then];
    try reflexivity.
  unfold query_page.
  destruct Hbad as [-> | Hoff]; [reflexivity |].
  rewrite Hoff. destruct (row_count (limit q)); reflexivity.
Qed.

(** C2 (the code departs from it).  With page=0 the handler computes offset
    -limit and reports current_page 0, with a negative page a negative
    offset, with a non-numeric page the offset NaN; the page statement is
    then refused and the request ends in the 500 response, whatever the
    database holds.  Only an absent page is read as page 1. *)
Theorem page_zero_is_not_page_one :
  let zero := with_page (Some (QStr "0")) no_query in
  let negative := with_page (Some (QStr "-2")) no_query in
  let text := with_page (Some (QStr "abc")) no_query in
  (offset zero = Num (-10) /\ current_page zero = Num 0
   /\ list_cards E db zero = internal_server_error)
  /\ (offset negative = Num (-30) /\ current_page negative = Num (-2)
      /\ list_cards E db negative = internal_server_error)
  /\ (offset text = NaN /\ current_page text = NaN
      /\ list_cards E db text = internal_server_error)
  /\ (offset no_query = Num 0 /\ current_page no_query = Num 1).
Proof.
  cbv zeta. repeat split; try reflexivity;
    (apply list_cards_rejected_page; [reflexivity | right; reflexivity]).
Qed.

(** C3 (the code departs from it).  A negative per_page is neither clamped
    nor defaulted: per_page=-5 gives the limit -5, outside [1,100]; the page
    statement is then refused and the request ends in the 500 response. *)
Theorem negative_per_page_is_kept :
  let q := with_per_page (Some (QStr "-5")) no_query in
  limit q = Num (-5) /\ list_cards E db q = internal_server_error.
Proof.
  cbv zeta. split; [reflexivity |].
  apply list_cards_rejected_page; [reflexivity | left; reflexivity].
Qed.

(** *** The response *)

(** The rows that match are rows of the table, so there are fewer than 2^53
    of them. *)
Lemma matching_fits q : Z.of_nat (length (matching db q)) < 2 ^ 53.
Proof.
  pose proof (cards_fit db) as Hfit.
  pose proof (filter_length_le (where_holds db (whereClause q) (count_values q))
                (cards db)) as Hle.
  unfold matching. lia.
Qed.

(** What a 200 response of the list handler was computed from. *)
Lemma list_cards_ok q p cs :
  list_cards E db q = respond 200 (CardList p cs) ->
  exists n k m,
    row_count (limit q) = Some n /\ row_count (offset q) = Some k
    /\ stageFundingMap E (card_stage_funding db) = Normal m
    /\ map_rows (attach_funding E m)
         (firstn n (skipn k
            (order_by (precedes db (sortBySafe q) (sortDirSafe q)) (matching db q))))
       = Normal cs
    /\ p = {| pagination_current_page := current_page q;
              per_page := limit q;
              total_pages :=
                Math_ceil_div (Num (Z.of_nat (length (matching db q)))) (limit q) |}.
Proof.
  intros Hsent. apply list_cards_sent in Hsent as [_ Hresp]. revert Hresp.
  unfold list_cards_answer.
  destruct (list_cards_try E db q) as [b | e] eqn:Htry; [| discriminate].
  intros Hresp. injection Hresp as ->.
  revert Htry. unfold list_cards_try, query_count, query_page, query_funding,
    pool_query.
  destruct (failure db (count_sql q) (count_values q)); [discriminate |].
  cbn [and_then]. rewrite parseInt_count by apply matching_fits.
  destruct (row_count (limit q)) as [n |]; [| discriminate].
  destruct (row_count (offset q)) as [k |]; [| discriminate].
  destruct (failure db (page_sql q) (page_values q)); [discriminate |].
  cbn [and_then].
  destruct (failure db funding_sql []); [discriminate |].
  cbn [and_then].
  destruct (stageFundingMap E (card_stage_funding db)) as [m | e]; [| discriminate].
  cbn [and_then].
  destruct (map_rows _ _) as [cs' | e] eqn:Hmap; [| discriminate].
  cbn [and_then]. intros [= <- <-].
  exists n, k, m. repeat split; try reflexivity. exact Hmap.
Qed.

Lemma row_count_some a n : row_count a = Some n -> exists z, a = Num z /\ 0 <= z.
Proof.
  destruct a as [| s | z]; try discriminate. cbn [row_count].
  destruct (Z.leb_spec 0 z) as [Hz | Hz]; [| discriminate].
  intros _. exists z. now split.
Qed.

Lemma row_count_is a n z :
  row_count a = Some n -> a = Num z -> n = Z.to_nat z /\ 0 <= z < 2 ^ 63.
Proof.
  intros Hn ->. revert Hn. cbn [row_count].
  destruct (Z.leb_spec 0 z) as [Hz | Hz]; [| discriminate].
  destruct (Z.ltb_spec z (2 ^ 63)) as [Hlt | Hge]; [| discriminate].
  cbn [andb]. intros [= <-]. split; [reflexivity | lia].
Qed.

Lemma row_count_negative z : z < 0 -> row_count (Num z) = None.
Proof.
  intros Hz. cbn [row_count]. destruct (Z.leb_spec 0 z); [lia | reflexivity].
Qed.

Lemma ceiling_bounds n l :
  0 < l -> (- (- n / l) - 1) * l < n <= - (- n / l) * l.
Proof.
  intros Hl.
  pose proof (Z.div_mod (- n) l ltac:(lia)).
  pose proof (Z.mod_pos_bound (- n) l Hl). nia.
Qed.

(** C7.  In every 200 response of the list endpoint, total_pages is the
    ceiling of total_rows / limit, where total_rows is the number of rows
    that satisfy the filters and limit, the reported per_page, lies in
    [1,100]: it is the integer t with (t-1) * limit < total_rows <= t * limit.
    When total_rows is 0, total_pages is 0 and cards is empty. *)
Theorem total_pages_is_ceiling (q : query) (p : pagination)
  (cs : list card_with_funding) :
  list_cards E db q = respond 200 (CardList p cs) ->
  let total_rows := Z.of_nat (length (matching db q)) in
  exists l t,
    limit q = Num l /\ 1 <= l <= 100 /\ per_page p = Num l
    /\ total_pages p = Num t
    /\ (t - 1) * l < total_rows <= t * l
    /\ (total_rows = 0 -> t = 0 /\ cs = []).
Proof.
  intros Hok total_rows.
  destruct (list_cards_ok q p cs Hok) as (n & k & m & Hn & Hk & Hm & Hmap & ->).
  destruct (row_count_some _ _ Hn) as (l & Hl & Hpos).
  destruct (limit_finite q l Hl) as [Hnz Hle].
  exists l, (- (- total_rows / l)). cbn [per_page total_pages].
  rewrite Hl. cbn [Math_ceil_div].
  assert (Hz : (l =? 0) = false) by (apply Z.eqb_neq; exact Hnz).
  rewrite Hz. repeat split; try lia.
  - apply ceiling_bounds. lia.
  - apply ceiling_bounds. lia.
  - subst total_rows. rewrite H. reflexivity.
  - assert (Hnil : matching db q = [])
      by (apply length_zero_iff_nil; subst total_rows; lia).
    rewrite Hnil in Hmap. cbn [order_by fold_right] in Hmap.
    rewrite skipn_nil, firstn_nil in Hmap. cbn in Hmap. congruence.
Qed.

(** *** The join with card_stage_funding *)

Lemma group_of_cons row rows key :
  group_of (row :: rows) key
  = ((if String.eqb (property_key (card_id row)) key then [entry_of_row row] else [])
     ++ group_of rows key)%list.
Proof.
  unfold group_of. cbn [List.filter].
  destruct (String.eqb (property_key (card_id row)) key); reflexivity.
Qed.

(** A turn of the loop that does not throw appends the row's entry to the
    array under the row's key. *)
Lemma add_funding_row_normal (m m' : gmap string (list stage_entry)) row :
  add_funding_row E m row = Normal m' ->
  m' = <[property_key (card_id row) :=
           (default [] (m !! property_key (card_id row)) ++ [entry_of_row row])%list]> m.
Proof.
  unfold add_funding_row. set (key := property_key (card_id row)).
  destruct (m !! key) as [entries |] eqn:Hm.
  - rewrite Hm. now intros [= <-].
  - destruct (has_builtin_property E (JObj []) key).
    + rewrite Hm. discriminate.
    + rewrite lookup_insert_eq. intros [= <-]. cbn [default app].
      cbv [Datatypes.id]. now rewrite insert_insert_eq.
Qed.

Lemma stageFundingMap_from_lookup rows :
  forall (m0 m : gmap string (list stage_entry)) key,
  stageFundingMap_from E rows m0 = Normal m ->
  m !! key
  = match group_of rows key with
    | [] => m0 !! key
    | g => Some (default [] (m0 !! key) ++ g)%list
    end.
Proof.
  induction rows as [| row rows IH]; intros m0 m key Hm.
  - injection Hm as <-. reflexivity.
  - cbn [stageFundingMap_from] in Hm.
    destruct (add_funding_row E m0 row) as [m1 |] eqn:Hrow; [| discriminate].
    cbn [and_then] in Hm. rewrite (IH m1 m key Hm).
    apply add_funding_row_normal in Hrow. subst m1.
    rewrite group_of_cons.
    destruct (String.eqb (property_key (card_id row)) key) eqn:Hkey.
    + apply String.eqb_eq in Hkey. subst key. rewrite lookup_insert_eq.
      cbn [default app]. cbv [Datatypes.id].
      destruct (group_of rows _); cbn [app].
      * reflexivity.
      * now rewrite <- app_assoc.
    + apply String.eqb_neq in Hkey. rewrite lookup_insert_ne by exact Hkey.
      reflexivity.
Qed.

(** The object built by lines 297-309 maps a key to the group of that key,
    and has no property for a key without rows. *)
Lemma stageFundingMap_lookup rows (m : gmap string (list stage_entry)) key :
  stageFundingMap E rows = Normal m ->
  default [] (m !! key) = group_of rows key.
Proof.
  intros Hm. rewrite (stageFundingMap_from_lookup rows ∅ m key Hm).
  rewrite lookup_empty. destruct (group_of rows key); reflexivity.
Qed.

Lemma attach_funding_normal (m : gmap string (list stage_entry)) c cf :
  attach_funding E m c = Normal cf ->
  card_columns cf = c
  /\ stage_funding cf = default [] (m !! id c)
  /\ total_funding_requested cf
     = toFixed (number_to_string E) (sum_requested (stage_funding cf)) 8.
Proof.
  unfold attach_funding.
  destruct (m !! id c) as [entries |]; cbn [and_then default].
  - intros [= <-]. repeat split.
  - destruct (has_builtin_property E (JObj []) (id c)); [discriminate |].
    cbn [and_then]. intros [= <-]. repeat split.
Qed.

Lemma map_rows_normal {A B} (f : A -> completion B) rows : forall bs,
  map_rows f rows = Normal bs ->
  Forall (fun b => exists a, In a rows /\ f a = Normal b) bs.
Proof.
  induction rows as [| r rows IH]; intros bs; cbn [map_rows].
  - intros [= <-]. constructor.
  - destruct (f r) as [b |] eqn:Hb; [| discriminate]. cbn [and_then].
    destruct (map_rows f rows) as [bs' |]; [| discriminate]. cbn [and_then].
    intros [= <-]. constructor.
    + exists r. split; [now left | exact Hb].
    + eapply List.Forall_impl; [| apply IH; reflexivity].
      intros b' (a & Ha & Hfa). exists a. split; [now right | exact Hfa].
Qed.

Lemma add_nan_r x : (x + nan)%float = nan.
Proof.
  apply Prim2SF_inj. rewrite add_spec.
  change (Prim2SF nan) with S754_nan.
  unfold SF64add, SFadd. now destruct (Prim2SF x).
Qed.

Lemma add_nan_l x : (nan + x)%float = nan.
Proof.
  apply Prim2SF_inj. rewrite add_spec.
  change (Prim2SF nan) with S754_nan.
  unfold SF64add, SFadd. now destruct (Prim2SF x).
Qed.

(** The loop of [reduce] over the entries of a row group adds what
    [amount_read] reads from the rows. *)
Lemma requested_amount_read row :
  requested_amount (entry_of_row row) = amount_read (funding_requested row).
Proof.
  unfold requested_amount, amount_read, entry_of_row.
  cbn [entry_funding_requested].
  destruct (funding_requested row) as [[| a text] |]; reflexivity.
Qed.

Lemma sum_requested_rows rows : forall acc,
  fold_left (fun sum s => (sum + requested_amount s)%float)
    (List.map entry_of_row rows) acc
  = fold_left PrimFloat.add
      (List.map (fun row => amount_read (funding_requested row)) rows) acc.
Proof.
  induction rows as [| row rest IH]; intros acc; [reflexivity |].
  cbn [List.map fold_left]. now rewrite requested_amount_read, IH.
Qed.

Lemma fold_add_nan amounts : fold_left PrimFloat.add amounts nan = nan.
Proof.
  induction amounts as [| a rest IH]; [reflexivity |].
  cbn [fold_left]. now rewrite add_nan_l.
Qed.

Lemma binary64_sum_nan amounts : In nan amounts -> binary64_sum amounts = nan.
Proof.
  unfold binary64_sum. generalize 0%float.
  induction amounts as [| a rest IH]; intros acc Hin; [destruct Hin |].
  cbn [fold_left]. destruct Hin as [-> | Hin].
  - rewrite add_nan_r. apply fold_add_nan.
  - now apply IH.
Qed.

(** C5, as the code has it.  In every 200 response of the list endpoint
    each card carries, as stage_funding, the entries of the rows of
    card_stage_funding whose card_id is the card's id, in table order (none:
    the empty list), and, as total_funding_requested, [toFixed(8)] of the
    binary64 sum of their amounts: each funding_requested as [parseFloat]
    reads it (NULL or empty: 0), added one after the other from 0 in table
    order.  The total has exactly 8 fractional digits whenever that sum is
    finite and below 10^21, and is the text NaN when an amount reads as NaN.
    A card without rows gets 0.00000000 and the empty list, and a card whose
    rows request 1.5 and 2.25 gets 3.75000000. *)
Theorem total_is_the_binary64_sum_of_the_row_group (q : query)
  (p : pagination) (cs : list card_with_funding) :
  list_cards E db q = respond 200 (CardList p cs) ->
  Forall (fun cf =>
    let rows := rows_of_card (card_stage_funding db) (id (card_columns cf)) in
    let sum :=
      binary64_sum
        (List.map (fun row => amount_read (funding_requested row)) rows) in
    stage_funding cf = List.map entry_of_row rows
    /\ total_funding_requested cf = toFixed (number_to_string E) sum 8
    /\ (fixed_range sum = true -> fixed_notation 8 (total_funding_requested cf))
    /\ ((exists row, In row rows /\ amount_read (funding_requested row) = nan) ->
        total_funding_requested cf = "NaN")
    /\ (rows = [] ->
        stage_funding cf = [] /\ total_funding_requested cf = "0.00000000")
    /\ (forall r1 r2,
        rows = [r1; r2] ->
        funding_requested r1 = Some "1.5" ->
        funding_requested r2 = Some "2.25" ->
        total_funding_requested cf = "3.75000000")) cs.
Proof.
  intros Hok.
  destruct (list_cards_ok q p cs Hok) as (n & k & m & _ & _ & Hm & Hmap & _).
  eapply List.Forall_impl; [| exact (map_rows_normal _ _ _ Hmap)].
  intros cf (c & _ & Hcf). cbv zeta.
  destruct (attach_funding_normal m c cf Hcf) as (Hc & Hsf & Htotal).
  rewrite Hc.
  set (rows := rows_of_card (card_stage_funding db) (id c)).
  assert (Hgroup : stage_funding cf = List.map entry_of_row rows).
  { rewrite Hsf. now apply stageFundingMap_lookup. }
  assert (Hsum : total_funding_requested cf
                 = toFixed (number_to_string E)
                     (binary64_sum
                        (List.map (fun row => amount_read (funding_requested row))
                           rows)) 8).
  { rewrite Htotal, Hgroup. unfold sum_requested, binary64_sum.
    now rewrite sum_requested_rows. }
  split; [exact Hgroup |]. split; [exact Hsum |]. split; [| split; [| split]].
  - intros Hrange. rewrite Hsum. now apply toFixed_notation.
  - intros (row & Hin & Hnan). rewrite Hsum, binary64_sum_nan; [reflexivity |].
    rewrite <- Hnan.
    exact (in_map (fun row => amount_read (funding_requested row)) rows row Hin).
  - intros Hnil. rewrite Hsum, Hgroup, Hnil. split; reflexivity.
  - intros r1 r2 Hrows H1 H2. rewrite Hsum, Hrows.
    cbn [List.map]. rewrite H1, H2. vm_compute. reflexivity.
Qed.

End ListEndpoint.

(* ===================================================================== *)
(** ** The detail endpoint *)

Lemma filter_none {A} (f : A -> bool) (l : list A) :
  (forall x, In x l -> f x = false) -> List.filter f l = [].
Proof.
  induction l as [| x l IH]; intros Hall; [reflexivity |].
  cbn [List.filter]. rewrite (Hall x (or_introl eq_refl)).
  apply IH. intros y Hy. apply Hall. now right.
Qed.

(** C6.  When the detail statement is executed and the id is unknown, or
    known but carried only by rows whose visibility is not PUBLIC, the
    detail endpoint answers with the same response in both cases: status
    404 and the body with error Not Found. *)
Theorem private_card_is_not_found (E : engine) (db : database) (net : network)
  (req_id : string) :
  failure db detail_sql [Query (QStr req_id)] = None ->
  unknown_id db req_id \/ private_id db req_id ->
  card_detail E db net req_id = not_found.
Proof.
  intros Hrun Hcase. unfold card_detail, query_detail, pool_query.
  rewrite Hrun, filter_none; [reflexivity |].
  intros c Hc. destruct Hcase as [Hunknown | [_ Hprivate]].
  - now rewrite (Hunknown c Hc).
  - destruct (id_equals db (Query (QStr req_id)) c) eqn:Hid; [| reflexivity].
    cbn [andb]. apply String.eqb_neq. now apply Hprivate.
Qed.

(* ===================================================================== *)
(** ** Concrete runs *)

Example list_cards_sample :
  list_cards sample_engine sample_db two_per_page
  = respond 200 (CardList first_page first_page_cards).
Proof. vm_compute. reflexivity. Qed.

Example fetchWalletInfo_sample :
  fetchWalletInfo sample_engine sample_network ["t1abc"; "t1def"]
  = Normal
      {| wallet_addresses_info :=
           [AddressError "t1abc" "HTTP error 500";
            AddressInfo "t1def" 1.5 2.5 1
              (JArr (List.map JStr
                       ["tx01"; "tx02"; "tx03"; "tx04"; "tx05"; "tx06";
                        "tx07"; "tx08"; "tx09"; "tx10"]))];
         wallet_totals :=
           {| totals_balance := 1.5; totals_total_received := 2.5;
              totals_total_sent := 1 |} |}.
Proof. vm_compute. reflexivity. Qed.

Example card_detail_sample :
  card_detail sample_engine sample_db sample_network (id card_3)
  = respond 200 (CardDetail card_3 NoWalletField)
  /\ card_detail sample_engine sample_db sample_network (id card_4)
     = respond 200 (CardDetail card_4 NoWalletField)
  /\ status_code (card_detail sample_engine sample_db sample_network (id card_1))
     = 200%nat.
Proof. repeat split; vm_compute; reflexivity. Qed.

Lemma where_clause_depends_on_presence_only_witness :
  let q1 := {| q_page := None; q_per_page := None; q_sort_by := None;
               q_sort_dir := None; q_priority := Some (QStr "HIGH");
               q_status := None; q_stage := Some (QStr "");
               q_tags := Some (QStr "privacy") |} in
  let q2 := {| q_page := Some (QStr "3"); q_per_page := None; q_sort_by := None;
               q_sort_dir := None;
               q_priority := Some (QStr "x' OR visibility <> 'PUBLIC");
               q_status := None; q_stage := None;
               q_tags := Some (QArr [QStr "a"; QStr "b"]) |} in
  whereClause q1 = whereClause q2 /\ count_sql q1 = count_sql q2
  /\ count_sql q1
     = "SELECT COUNT(*) FROM cards WHERE visibility = 'PUBLIC' AND priority = $1 AND tags && string_to_array($2, ',')"
  /\ page_sql q1
     = "SELECT * FROM cards WHERE visibility = 'PUBLIC' AND priority = $1 AND tags && string_to_array($2, ',') ORDER BY last_updated desc LIMIT $3 OFFSET $4".
Proof.
  cbv zeta.
  match goal with
  | |- whereClause ?q1 = whereClause ?q2 /\ _ =>
      destruct (where_clause_depends_on_presence_only q1 q2)
        as (Hw & Hc & _ & _ & _ & _ & _ & Hcount & Hpage & _)
  end.
  - repeat split; reflexivity.
  - split; [exact Hw |]. split; [exact Hc |].
    split; [exact Hcount | exact Hpage].
Defined.

Lemma total_pages_is_ceiling_witness :
  exists l t,
    limit two_per_page = Num l /\ 1 <= l <= 100 /\ per_page first_page = Num l
    /\ total_pages first_page = Num t
    /\ (t - 1) * l < Z.of_nat (length (matching sample_db two_per_page)) <= t * l
    /\ (Z.of_nat (length (matching sample_db two_per_page)) = 0 ->
        t = 0 /\ first_page_cards = []).
Proof.
  apply (total_pages_is_ceiling sample_engine sample_db two_per_page
           first_page first_page_cards).
  vm_compute. reflexivity.
Defined.

Lemma total_is_the_binary64_sum_of_the_row_group_witness :
  Forall (fun cf =>
    let rows := rows_of_card funding_of_three (id (card_columns cf)) in
    let sum :=
      binary64_sum
        (List.map (fun row => amount_read (funding_requested row)) rows) in
    stage_funding cf = List.map entry_of_row rows
    /\ total_funding_requested cf
       = toFixed (number_to_string sample_engine) sum 8
    /\ (fixed_range sum = true -> fixed_notation 8 (total_funding_requested cf))
    /\ ((exists row, In row rows /\ amount_read (funding_requested row) = nan) ->
        total_funding_requested cf = "NaN")
    /\ (rows = [] ->
        stage_funding cf = [] /\ total_funding_requested cf = "0.00000000")
    /\ (forall r1 r2,
        rows = [r1; r2] ->
        funding_requested r1 = Some "1.5" ->
        funding_requested r2 = Some "2.25" ->
        total_funding_requested cf = "3.75000000"))
    first_page_cards_of_three.
Proof.
  apply (total_is_the_binary64_sum_of_the_row_group sample_engine
           (with_funding funding_of_three sample_db) two_per_page first_page
           first_page_cards_of_three).
  vm_compute. reflexivity.
Defined.

(** The claim of C5 fails where binary64 addition rounds: for a card whose
    two rows request 15052911.70296048 and 18745055.96553749 the handler
    answers 33797967.66849796, and the decimal sum of the two amounts is
    33797967.66849797.  It also fails for an amount that is NaN, where the
    total is the text NaN and has no fractional digits at all. *)
Lemma the_total_is_not_always_the_decimal_sum :
  list_cards sample_engine (with_funding funding_of_large_amounts sample_db)
    two_per_page
  = respond 200 (CardList first_page first_page_cards_of_large_amounts)
  /\ Forall (fun cf =>
       stage_funding cf
       = group_of funding_of_large_amounts (id (card_columns cf)))
       first_page_cards_of_large_amounts
  /\ List.map total_funding_requested first_page_cards_of_large_amounts
     = ["33797967.66849796"; "0.00000000"]
  /\ List.map (fun cf =>
                 decimal_total
                   (List.map entry_funding_requested (stage_funding cf)))
       first_page_cards_of_large_amounts
     = ["33797967.66849797"; "0.00000000"]
  /\ list_cards sample_engine (with_funding funding_with_NaN sample_db)
       two_per_page
     = respond 200 (CardList first_page first_page_cards_with_NaN)
  /\ List.map total_funding_requested first_page_cards_with_NaN
     = ["1.50000000"; "NaN"]
  /\ ~ fixed_notation 8 "NaN"
  /\ List.map total_funding_requested first_page_cards_of_large_amounts
     <> List.map (fun cf =>
                   decimal_total
                     (List.map entry_funding_requested (stage_funding cf)))
          first_page_cards_of_large_amounts.
Proof.
  repeat split; try (vm_compute; reflexivity).
  - repeat constructor.
  - intros (sign & int & frac & Htext & Hsign & Hint & Hdigits & _).
    destruct Hsign as [-> | ->]; [| discriminate Htext].
    destruct int as [| c int]; [now apply Hint |].
    injection Htext as <- _. discriminate Hdigits.
  - vm_compute. discriminate.
Qed.

Lemma private_card_is_not_found_witness :
  card_detail sample_engine sample_db sample_network (id card_2) = not_found
  /\ card_detail sample_engine sample_db sample_network
       "00000000-0000-4000-8000-000000000000" = not_found.
Proof.
  split; apply private_card_is_not_found; try reflexivity.
  - right. split.
    + exists card_2. split; [right; left; reflexivity | reflexivity].
    + intros c [<- | [<- | [<- | [<- | []]]]]; vm_compute; congruence.
  - left. intros c [<- | [<- | [<- | [<- | []]]]]; reflexivity.
Defined.

Lemma address_lookup_fails_exactly_when_witness :
  fst (lookup_address sample_engine sample_network "t1abc" initial_wallet_state)
  = Throw (Error "HTTP error 500")
  /\ results (snd (lookup_address sample_engine
                     (always (FetchResponse 200
                                (BodyJson (explorer_body "t1def" 150000000
                                             250000000 100000000))))
                     "t1def" initial_wallet_state))
     = [AddressInfo "t1def" (150000000 / 1e8)%float (250000000 / 1e8)%float
          (100000000 / 1e8)%float
          (JArr (List.map JStr
                   ["tx01"; "tx02"; "tx03"; "tx04"; "tx05"; "tx06"; "tx07";
                    "tx08"; "tx09"; "tx10"]))].
Proof.
  split.
  - destruct (address_lookup_fails_exactly_when sample_engine sample_network
                "t1abc" initial_wallet_state) as (_ & Hstatus & _).
    apply (Hstatus 500%nat (BodyUnreadable (Error "Unexpected token <")));
      reflexivity.
  - destruct (address_lookup_fails_exactly_when sample_engine
                (always (FetchResponse 200
                           (BodyJson (explorer_body "t1def" 150000000
                                        250000000 100000000))))
                "t1def" initial_wallet_state) as (_ & _ & Hexpected).
    apply (Hexpected 200%nat
             (explorer_body "t1def" 150000000 250000000 100000000)
             150000000%float 250000000%float 100000000%float
             (List.map JStr
                ["tx01"; "tx02"; "tx03"; "tx04"; "tx05"; "tx06"; "tx07";
                 "tx08"; "tx09"; "tx10"; "tx11"; "tx12"]));
      [reflexivity | reflexivity |].
    do 3 eexists. repeat split; reflexivity.
Defined.


Lemma unrecognized_sort_falls_back_witness :
  sortBySafe (with_sort_by (Some (QStr "id; DROP TABLE cards")) no_query)
  = "last_updated"
  /\ sortDirSafe (with_sort_dir (Some (QArr [QStr "asc"])) no_query) = "desc".
Proof.
  split.
  - apply (unrecognized_sort_falls_back sample_engine
             sample_db
             (with_sort_by (Some (QStr "id; DROP TABLE cards")) no_query)).
    reflexivity.
  - apply (unrecognized_sort_falls_back sample_engine
             sample_db
             (with_sort_dir (Some (QArr [QStr "asc"])) no_query)).
    reflexivity.
Defined.

Lemma incomplete_body_is_not_expected :
  ~ exists b r s txs, expected_structure incomplete_body "t1abc" b r s txs.
Proof.
  intros (b & r & s & txs & d & entry & info & Hd & He & Hi & Hb & _).
  vm_compute in Hd. injection Hd as <-.
  vm_compute in He. injection He as <-.
  vm_compute in Hi. injection Hi as <-.
  vm_compute in Hb. discriminate.
Qed.

(** C8 as stated fails: the service answers 200 with a body that lacks the
    documented balance, received and sent, and the lookup does not throw; it
    records an entry whose three amounts are NaN, and the totals become
    NaN. *)
Lemma missing_balance_is_not_a_failure :
  response_ok 200 = true
  /\ (~ exists b r s txs, expected_structure incomplete_body "t1abc" b r s txs)
  /\ lookup_address sample_engine
       (always (FetchResponse 200 (BodyJson incomplete_body))) "t1abc"
       initial_wallet_state
     = (Normal tt,
        {| results := [AddressInfo "t1abc" nan nan nan (JArr [])];
           total_balance := nan; total_received := nan; total_sent := nan;
           requests := 1 |}).
Proof.
  split; [reflexivity |]. split; [exact incomplete_body_is_not_expected |].
  vm_compute. reflexivity.
Qed.


(* ===================================================================== *)
(** ** Further properties of the wallet aggregation *)

(** *** The request URL *)

Lemma append_cancel_l s : forall a b, s +:+ a = s +:+ b -> a = b.
Proof.
  induction s as [| c s IH]; intros a b H; [exact H |].
  rewrite !append_cons in H. injection H as H. now apply IH.
Qed.

Lemma append_cancel_r t : forall a b, a +:+ t = b +:+ t -> a = b.
Proof.
  induction a as [| c a IH]; intros b H.
  - destruct b as [| d b]; [reflexivity |].
    apply (f_equal String.length) in H. rewrite length_app in H.
    cbn [String.length] in H. rewrite length_app in H. cbn in H. lia.
  - destruct b as [| d b].
    + apply (f_equal String.length) in H. rewrite length_app in H.
      cbn [String.length] in H. rewrite length_app in H. cbn in H. lia.
    + rewrite !append_cons in H. injection H as -> H. f_equal. now apply IH.
Qed.

(** Two addresses are requested under the same URL only when they are the
    same address: the address stands, as it is, between the fixed prefix of
    the explorer's dashboard and the fixed query string. *)
Theorem address_url_is_injective (a b : string) :
  address_url a = address_url b <-> a = b.
Proof.
  split; [| now intros ->].
  unfold address_url. intros H.
  apply append_cancel_l in H. now apply append_cancel_r in H.
Qed.

(** *** NaN in the totals *)

Lemma sum_from_nan field rs : sum_from nan field rs = nan.
Proof.
  induction rs as [| r rs IH]; [reflexivity |].
  cbn [sum_from fold_left]. destruct (field r) as [x |]; [| exact IH].
  rewrite add_nan_l. exact IH.
Qed.

Lemma sum_from_has_nan field rs : forall start r,
  In r rs -> field r = Some nan -> sum_from start field rs = nan.
Proof.
  induction rs as [| r' rs IH]; intros start r Hin Hr; [destruct Hin |].
  cbn [sum_from fold_left]. destruct Hin as [-> | Hin].
  - rewrite Hr, add_nan_r. apply sum_from_nan.
  - now apply (IH _ r).
Qed.

Section WalletTotals.

Context (E : engine) (net : network).

(** What [fetchWalletInfo] returns, read off the loop. *)
Lemma fetchWalletInfo_outcome addresses :
  fetchWalletInfo E net addresses
  = let rs := entries_from E net 0 addresses in
    Normal {| wallet_addresses_info := rs;
              wallet_totals :=
                {| totals_balance := sum_from 0 balance_of rs;
                   totals_total_received := sum_from 0 received_of rs;
                   totals_total_sent := sum_from 0 sent_of rs |} |}.
Proof.
  unfold fetchWalletInfo. rewrite wallet_loop_outcome. reflexivity.
Qed.

Lemma entries_from_member addresses i addr :
  addresses !! i = Some addr ->
  In (entry_of E (net i (address_url addr)) addr) (entries_from E net 0 addresses).
Proof.
  intros Hi. apply (entries_from_lookup E net addresses 0%nat) in Hi.
  apply list_elem_of_lookup_2 in Hi. now apply list_elem_of_In in Hi.
Qed.

(** The totals are running binary64 sums, so one amount that is NaN makes
    its total NaN, whatever the other addresses hold.  When the lookup of
    one address ends with a balance (or a total received, or a total sent)
    that is NaN, as it does when the explorer's answer lacks that number,
    the corresponding total of the whole wallet is NaN. *)
Theorem one_NaN_amount_makes_the_total_NaN (addresses : list string) (i : nat)
  (addr : string) (f : address_fields) :
  addresses !! i = Some addr ->
  lookup E (net i (address_url addr)) addr = Normal f ->
  exists w,
    fetchWalletInfo E net addresses = Normal w
    /\ (balance f = nan -> totals_balance (wallet_totals w) = nan)
    /\ (received f = nan -> totals_total_received (wallet_totals w) = nan)
    /\ (sent f = nan -> totals_total_sent (wallet_totals w) = nan).
Proof.
  intros Hi Hf. rewrite fetchWalletInfo_outcome. cbv zeta.
  eexists. split; [reflexivity |].
  cbn [wallet_totals totals_balance totals_total_received totals_total_sent].
  pose proof (entries_from_member addresses i addr Hi) as Hin.
  unfold entry_of in Hin. rewrite Hf in Hin.
  repeat split; intros Hnan;
    apply (sum_from_has_nan _ _ _ _ Hin); cbn; now rewrite Hnan.
Qed.

(** *** No address succeeds *)

Lemma entries_from_all_fail addresses : forall k,
  all_lookups_fail E net k addresses ->
  Forall (fun r => exists e, r = AddressError (address_of r) e)
    (entries_from E net k addresses)
  /\ forall start field,
       (forall a e, field (AddressError a e) = None) ->
       sum_from start field (entries_from E net k addresses) = start.
Proof.
  induction addresses as [| a rest IH]; intros k Hfail.
  - split; [constructor | reflexivity].
  - destruct (Hfail 0%nat a eq_refl) as [e He]. rewrite Nat.add_0_r in He.
    destruct (IH (S k)) as [Hall Hsum].
    { intros i addr Hi. destruct (Hfail (S i) addr Hi) as [e' He'].
      exists e'. now replace (S k + i)%nat with (k + S i)%nat by lia. }
    assert (Hentry : entry_of E (net k (address_url a)) a
                     = AddressError a (message e)).
    { unfold entry_of. now rewrite He. }
    cbn [entries_from]. rewrite Hentry. split.
    + constructor; [now exists (message e) | exact Hall].
    + intros start field Hfield. cbn [sum_from fold_left].
      rewrite Hfield. now apply Hsum.
Qed.

(** When the lookup of every address fails (in particular when there is no
    address) [fetchWalletInfo] still returns: every entry is an error entry
    for its address, and the three totals are 0, not NaN. *)
Theorem totals_are_zero_when_every_lookup_fails (addresses : list string) :
  all_lookups_fail E net 0 addresses ->
  exists w,
    fetchWalletInfo E net addresses = Normal w
    /\ List.map address_of (wallet_addresses_info w) = addresses
    /\ Forall (fun r => exists e, r = AddressError (address_of r) e)
         (wallet_addresses_info w)
    /\ wallet_totals w
       = {| totals_balance := 0; totals_total_received := 0;
            totals_total_sent := 0 |}.
Proof.
  intros Hfail. rewrite fetchWalletInfo_outcome. cbv zeta.
  destruct (entries_from_all_fail addresses 0%nat Hfail) as [Hall Hsum].
  eexists. split; [reflexivity |].
  cbn [wallet_addresses_info wallet_totals].
  split; [apply entries_from_addresses |]. split; [exact Hall |].
  now rewrite !Hsum.
Qed.

(** *** The transactions of an entry *)

Lemma substring_length_le s : forall a b,
  (String.length (substring a b s) <= b)%nat.
Proof.
  induction s as [| c s IH]; intros [| a] [| b]; cbn [substring String.length];
    try lia.
  - specialize (IH 0%nat b). lia.
  - apply IH.
  - specialize (IH a (S b)). lia.
Qed.

Lemma address_fields_of_transactions data addr f :
  address_fields_of E data addr = Normal f ->
  (exists items, transactions f = JArr items /\ (length items <= 10)%nat)
  \/ (exists s, transactions f = JStr s /\ (String.length s <= 10)%nat).
Proof.
  unfold address_fields_of. intros Hf.
  repeat match type of Hf with
  | and_then ?c _ = Normal _ =>
      let H := fresh "Hstep" in
      destruct c eqn:H; [cbn [and_then] in Hf | discriminate]
  end.
  injection Hf as <-. cbn [transactions].
  match goal with
  | H : slice_0_10 E _ = Normal _ |- _ =>
      apply slice_normal in H as [(items & _ & ->) | (s & _ & ->)]
  end.
  - left. eexists. split; [reflexivity | apply firstn_le_length].
  - right. eexists. split; [reflexivity | apply substring_length_le].
Qed.

Lemma entries_from_transactions addresses : forall k,
  Forall at_most_ten_transactions (entries_from E net k addresses).
Proof.
  induction addresses as [| a rest IH]; intros k; cbn [entries_from];
    constructor; [| apply IH].
  unfold entry_of, lookup.
  destruct (address_data (net k (address_url a))) as [data | e];
    cbn [and_then]; [| exact I].
  destruct (address_fields_of E data a) as [f | e] eqn:Hf; [| exact I].
  destruct (address_fields_of_transactions data a f Hf)
    as [(items & -> & Hlen) | (s & -> & Hlen)]; exact Hlen.
Qed.

(** No entry of a wallet carries more than ten transactions, whatever the
    explorer sends: the transactions of an entry with balance data are an
    array of at most ten elements, or (when the explorer sent text in their
    place) a text of at most ten characters. *)
Theorem no_entry_carries_more_than_ten_transactions (addresses : list string) :
  exists w,
    fetchWalletInfo E net addresses = Normal w
    /\ Forall at_most_ten_transactions (wallet_addresses_info w).
Proof.
  rewrite fetchWalletInfo_outcome. cbv zeta.
  eexists. split; [reflexivity |]. apply entries_from_transactions.
Qed.

(** *** Lists of addresses put together *)

Lemma entries_from_later addresses : forall k j,
  entries_from E (later k net) j addresses
  = entries_from E net (k + j) addresses.
Proof.
  induction addresses as [| a rest IH]; intros k j; [reflexivity |].
  cbn [entries_from]. rewrite IH. unfold later at 1.
  now replace (k + S j)%nat with (S (k + j)) by lia.
Qed.

Lemma entries_from_app xs : forall ys k,
  entries_from E net k (xs ++ ys)
  = (entries_from E net k xs ++ entries_from E net (k + length xs) ys)%list.
Proof.
  induction xs as [| a rest IH]; intros ys k; cbn [app entries_from length].
  - now rewrite Nat.add_0_r.
  - rewrite IH. now replace (S k + length rest)%nat with (k + S (length rest))%nat by lia.
Qed.

(** The wallet of [xs ++ ys] is the wallet of [xs] continued with [ys]: its
    entries are the entries of [xs] followed by the entries [ys] gets from
    the network after the requests of [xs], and each total continues the
    total of [xs] over the entries of [ys].  So an address is handled the
    same whatever precedes it, failures included. *)
Theorem wallet_info_of_a_concatenation (xs ys : list string) :
  exists w1 w2 w,
    fetchWalletInfo E net xs = Normal w1
    /\ fetchWalletInfo E (later (length xs) net) ys = Normal w2
    /\ fetchWalletInfo E net (xs ++ ys)%list = Normal w
    /\ wallet_addresses_info w
       = (wallet_addresses_info w1 ++ wallet_addresses_info w2)%list
    /\ totals_balance (wallet_totals w)
       = sum_from (totals_balance (wallet_totals w1)) balance_of
           (wallet_addresses_info w2)
    /\ totals_total_received (wallet_totals w)
       = sum_from (totals_total_received (wallet_totals w1)) received_of
           (wallet_addresses_info w2)
    /\ totals_total_sent (wallet_totals w)
       = sum_from (totals_total_sent (wallet_totals w1)) sent_of
           (wallet_addresses_info w2).
Proof.
  rewrite !fetchWalletInfo_outcome.
  unfold fetchWalletInfo. rewrite wallet_loop_outcome. cbv zeta.
  do 3 eexists. do 3 (split; [reflexivity |]).
  cbn [wallet_addresses_info wallet_totals totals_balance totals_total_received
       totals_total_sent results total_balance total_received total_sent
       requests initial_wallet_state app].
  rewrite entries_from_later, Nat.add_0_r, entries_from_app.
  cbn [Nat.add]. now rewrite !sum_from_app.
Qed.


End WalletTotals.


(* ===================================================================== *)
(** ** Further properties of the list endpoint *)

(** *** Placeholders and bound values *)

(** In every statement the handlers send, the placeholders are numbered 1,
    2, ... in the order in which they appear, and there are exactly as many
    of them as values are bound: the statement counting the rows and the
    statement reading a page, for every request, the statement reading the
    funding table (none) and the statement of the detail endpoint (one, the
    id). *)
Theorem placeholders_are_numbered_like_the_values (q : query) :
  placeholders (count_sql q) = seq 1 (length (count_values q))
  /\ placeholders (page_sql q) = seq 1 (length (page_values q))
  /\ placeholders funding_sql = []
  /\ placeholders detail_sql = [1%nat].
Proof.
  destruct (filters_of_presence q) as [Hc Hi]. cbv zeta in Hc, Hi.
  assert (Hlen : length (values (filters q))
                 = ((if truthy (q_priority q) then 1 else 0)
                    + ((if truthy (q_status q) then 1 else 0)
                       + ((if truthy (q_stage q) then 1 else 0)
                          + (if truthy (q_tags q) then 1 else 0))))%nat).
  { rewrite filters_values. unfold present_values.
    now rewrite !List.length_app, !length_present_value. }
  split; [| split; [| split; reflexivity]].
  - unfold count_sql, count_values, whereClause. rewrite Hc, Hlen.
    destruct (truthy (q_priority q)), (truthy (q_status q)),
      (truthy (q_stage q)), (truthy (q_tags q)); reflexivity.
  - unfold page_sql, page_values, whereClause.
    rewrite Hc, Hi, List.length_app, Hlen.
    pose proof (sortBySafe_allowed q) as Hby.
    pose proof (sortDirSafe_allowed q) as Hdir.
    unfold validSortBy in Hby. unfold validSortDir in Hdir.
    cbn [In] in Hby, Hdir.
    destruct Hby as [<- | [<- | [<- | [<- | []]]]];
      destruct Hdir as [<- | [<- | []]];
      destruct (truthy (q_priority q)), (truthy (q_status q)),
        (truthy (q_stage q)), (truthy (q_tags q)); vm_compute; reflexivity.
Qed.

(** *** Text after the digits *)

Lemma Z_digits_append fuel : forall z acc,
  Z_digits fuel z acc = Z_digits fuel z "" +:+ acc.
Proof.
  induction fuel as [| fuel IH]; intros z acc; [reflexivity |].
  rewrite !Z_digits_step. destruct (z <? 10); [reflexivity |].
  rewrite (IH _ (String _ acc)), (IH _ (String _ "")).
  now rewrite append_assoc.
Qed.

Lemma scan_digits_stops s acc c :
  starts_with_digit s = false -> scan_digits s acc c = (acc, c, s).
Proof.
  destruct s as [| ch s]; [reflexivity |].
  unfold starts_with_digit, is_digit. cbn [scan_digits].
  now destruct (digit_value ch).
Qed.

(** [parseInt] reads the digits and ignores what follows them. *)
Lemma parseInt_digits_then_text z tail :
  0 <= z -> starts_with_digit tail = false ->
  parseInt (string_of_Z z +:+ tail) = Number_of_Z z.
Proof.
  intros Hz Htail. unfold parseInt, string_of_Z.
  rewrite <- Z_digits_append.
  destruct (Z_digits_head (Z.to_nat (Z.log2 z)) z tail Hz) as (d & rest & Hd & Heq).
  pose proof (scan_Z_digits (Z.to_nat (Z.log2 z)) z tail 0
                (conj Hz (string_of_Z_fuel z Hz))) as Hscan.
  rewrite Heq in *.
  destruct (digit_char_plain d Hd) as (Hws & Hminus & Hplus).
  cbn [trim_start]. rewrite Hws.
  assert (Hsign :
    match String (digit_char d) rest with
    | String "-" r => (-1, r)
    | String "+" r => (1, r)
    | _ => (1, String (digit_char d) rest)
    end = (1, String (digit_char d) rest)).
  { destruct (digit_char d) as [[] [] [] [] [] [] [] []];
      try reflexivity; congruence. }
  rewrite Hsign. rewrite (scan_digits_stops tail _ _ Htail) in Hscan.
  destruct (scan_digits (String (digit_char d) rest) None 0) as [[v n] r].
  cbn in Hscan. subst v. f_equal; lia.
Qed.

(** *** The effective limit *)

(** For a per_page that converts to text (anything but an object with a
    toString property of its own, at which the handler throws before it has
    a limit), the effective limit is never NaN, never zero and never above
    100.  It is 100 for a per_page that reads as a number above 100 or as
    Infinity, 10 for one that reads as NaN or as zero, the number read
    otherwise, negative ones included, and -Infinity exactly when per_page
    reads as -Infinity, as a minus sign and some 309 digits do. *)
Theorem limit_is_clamped_above (E : engine) (q : query) :
  conversion E (q_per_page q) = Normal tt ->
  let parsed :=
    parseInt (ToString (or_default (q_per_page q) (Number (Num 10)))) in
  (limit q = Inf true \/ exists z, limit q = Num z /\ z <> 0 /\ z <= 100)
  /\ (limit q = Inf true <-> parsed = Inf true)
  /\ (forall z,
      parsed = Num z ->
      (100 < z -> limit q = Num 100)
      /\ (z = 0 -> limit q = Num 10)
      /\ (z <> 0 -> z <= 100 -> limit q = Num z))
  /\ (parsed = NaN -> limit q = Num 10)
  /\ (parsed = Inf false -> limit q = Num 100).
Proof.
  intros _. cbv zeta.
  destruct (limit_by_cases q) as (Hhigh & Hdefault & Hkeep & Hplus & Hminus).
  cbv zeta in Hhigh, Hdefault, Hkeep, Hplus, Hminus.
  split; [apply limit_range |]. split; [| split; [| split]].
  - split; [| exact Hminus].
    destruct (parseInt_cases
                (ToString (or_default (q_per_page q) (Number (Num 10)))))
      as [Hp | [[[|] Hp] | [z Hp]]]; [| trivial | |].
    + rewrite (Hdefault (or_introl Hp)). discriminate.
    + rewrite (Hplus Hp). discriminate.
    + destruct (Z.eq_dec z 0) as [-> | Hz].
      * rewrite (Hdefault (or_intror Hp)). discriminate.
      * destruct (Z_lt_le_dec 100 z) as [Hlt | Hle].
        -- rewrite (Hhigh z Hp Hlt). discriminate.
        -- rewrite (Hkeep z Hp Hz Hle). discriminate.
  - intros z Hz. repeat split.
    + now apply Hhigh.
    + intros ->. apply Hdefault. now right.
    + now apply Hkeep.
  - intros Hnan. apply Hdefault. now left.
  - exact Hplus.
Qed.

Section ListPages.

Context (E : engine) (db : database).

(** The list handler reads page and per_page through [parseInt] only:
    two requests whose conversions end alike and whose page and limit are
    the same Numbers are answered alike. *)
Lemma list_cards_paging q q' :
  q_sort_by q' = q_sort_by q -> q_sort_dir q' = q_sort_dir q ->
  q_priority q' = q_priority q -> q_status q' = q_status q ->
  q_stage q' = q_stage q -> q_tags q' = q_tags q ->
  paging_conversions E q' = paging_conversions E q ->
  current_page q' = current_page q -> limit q' = limit q ->
  list_cards E db q' = list_cards E db q.
Proof.
  intros Hby Hdir Hpr Hst Hsg Htg Hconv Hpage Hlimit.
  unfold list_cards, list_cards_answer, list_cards_try, query_count,
    query_page, matching, count_sql, page_sql, count_values, page_values,
    whereClause, filters, offset, sortBySafe, sortDirSafe.
  now rewrite Hconv, Hby, Hdir, Hpr, Hst, Hsg, Htg, Hpage, Hlimit.
Qed.

(** Whatever follows the digits of page or per_page is ignored: a page or
    per_page that is a non-negative decimal number followed by text that
    does not start with a digit (page=2abc, per_page=5.9) is answered exactly
    as the number alone is.  The page reported is the Number for the digits:
    the integer itself below 2^53, the binary64 value nearest to it from
    there on. *)
Theorem text_after_the_digits_is_ignored (q : query) (z : Z) (tail : string) :
  0 <= z -> starts_with_digit tail = false ->
  let clean := Some (QStr (string_of_Z z)) in
  let sloppy := Some (QStr (string_of_Z z +:+ tail)) in
  current_page (with_page sloppy q) = Number_of_Z z
  /\ (z < 2 ^ 53 -> current_page (with_page sloppy q) = Num z)
  /\ list_cards E db (with_page sloppy q) = list_cards E db (with_page clean q)
  /\ list_cards E db (with_per_page sloppy q)
     = list_cards E db (with_per_page clean q).
Proof.
  intros Hz Htail clean sloppy. subst clean sloppy.
  assert (Hpage : current_page (with_page (Some (QStr (string_of_Z z +:+ tail))) q)
                  = Number_of_Z z).
  { unfold current_page, with_page.
    cbn [q_page or_default ToString qval_to_string].
    now apply parseInt_digits_then_text. }
  split; [exact Hpage |]. split; [| split].
  - intros Hsmall. rewrite Hpage. apply Number_of_Z_small. lia.
  - apply list_cards_paging; try reflexivity.
    rewrite Hpage. unfold current_page, with_page.
    cbn [q_page or_default ToString qval_to_string].
    symmetry. now apply parseInt_string_of_Z.
  - apply list_cards_paging; try reflexivity.
    unfold limit, with_per_page.
    cbn [q_per_page or_default ToString qval_to_string].
    rewrite parseInt_digits_then_text by assumption.
    now rewrite parseInt_string_of_Z.
Qed.

(** *** When the handler answers 200 *)

Lemma add_funding_row_throws (m : gmap string (list stage_entry)) row :
  (forall k, is_Some (m !! k) -> inherited E k = false) ->
  inherited E (property_key (card_id row)) = true ->
  exists e, add_funding_row E m row = Throw e.
Proof.
  intros Hinv Hkey. unfold add_funding_row.
  destruct (m !! property_key (card_id row)) as [entries |] eqn:Hm.
  - rewrite (Hinv _ (mk_is_Some _ _ Hm)) in Hkey. discriminate.
  - unfold inherited in Hkey. rewrite Hkey, Hm. eauto.
Qed.

Lemma add_funding_row_returns (m : gmap string (list stage_entry)) row :
  (forall k, is_Some (m !! k) -> inherited E k = false) ->
  inherited E (property_key (card_id row)) = false ->
  exists m', add_funding_row E m row = Normal m'
             /\ forall k, is_Some (m' !! k) -> inherited E k = false.
Proof.
  intros Hinv Hkey. unfold add_funding_row.
  set (key := property_key (card_id row)) in *.
  assert (Hkeys : forall (m1 : gmap string (list stage_entry)) entries k,
            (forall k', is_Some (m1 !! k') -> inherited E k' = false) ->
            is_Some (<[key := entries]> m1 !! k) -> inherited E k = false).
  { intros m1 entries k H1 Hk. destruct (decide (k = key)) as [-> | Hne];
      [exact Hkey |].
    rewrite lookup_insert_ne in Hk by congruence. now apply H1. }
  destruct (m !! key) as [entries |] eqn:Hm.
  - rewrite Hm. eexists. split; [reflexivity |].
    intros k. now apply Hkeys.
  - unfold inherited in Hkey. rewrite Hkey, lookup_insert_eq.
    eexists. split; [reflexivity |].
    intros k Hk. apply Hkeys in Hk; [exact Hk |].
    intros k'. now apply Hkeys.
Qed.

(** The loop over the funding rows runs to its end exactly when no row has
    a [card_id] that names a property the empty object inherits; the keys of
    the map it builds are then no such names either. *)
Lemma stageFundingMap_from_exactly_when rows : forall m0,
  (forall k, is_Some (m0 !! k) -> inherited E k = false) ->
  ((exists m, stageFundingMap_from E rows m0 = Normal m) <->
   Forall (fun row => inherited E (property_key (card_id row)) = false) rows)
  /\ forall m, stageFundingMap_from E rows m0 = Normal m ->
       forall k, is_Some (m !! k) -> inherited E k = false.
Proof.
  induction rows as [| row rest IH]; intros m0 Hinv; cbn [stageFundingMap_from].
  - split; [split; [constructor | eauto] |]. now intros m [= <-].
  - destruct (inherited E (property_key (card_id row))) eqn:Hkey.
    + destruct (add_funding_row_throws m0 row Hinv Hkey) as [e ->].
      cbn [and_then]. split; [split |].
      * intros [m Hm]. discriminate.
      * intros Hall. inversion Hall; congruence.
      * discriminate.
    + destruct (add_funding_row_returns m0 row Hinv Hkey) as (m' & -> & Hinv').
      cbn [and_then]. destruct (IH m' Hinv') as [Hiff Hkeys].
      split; [split |].
      * intros Hm. constructor; [exact Hkey | now apply Hiff].
      * intros Hall. apply Hiff. now inversion Hall.
      * exact Hkeys.
Qed.

Lemma stageFundingMap_exactly_when rows :
  ((exists m, stageFundingMap E rows = Normal m) <->
   Forall (fun row => inherited E (property_key (card_id row)) = false) rows)
  /\ forall m, stageFundingMap E rows = Normal m ->
       forall k, is_Some (m !! k) -> inherited E k = false.
Proof.
  apply stageFundingMap_from_exactly_when.
  intros k [x Hx]. rewrite lookup_empty in Hx. discriminate.
Qed.

Lemma map_rows_exactly_when {A B} (f : A -> completion B) rows :
  (exists bs, map_rows f rows = Normal bs)
  <-> Forall (fun a => exists b, f a = Normal b) rows.
Proof.
  induction rows as [| r rest IH]; cbn [map_rows].
  - split; [constructor | eauto].
  - destruct (f r) as [b | e] eqn:Hr; cbn [and_then].
    + destruct (map_rows f rest) as [bs | e]; cbn [and_then].
      * split; [| eauto]. intros _. constructor; [eauto | apply IH; eauto].
      * split; [intros [bs Hbs]; discriminate |].
        intros Hall. inversion Hall as [| ? ? _ Hrest]. apply IH in Hrest.
        destruct Hrest as [bs Hbs]. discriminate.
    + split; [intros [bs Hbs]; discriminate |].
      intros Hall. inversion Hall as [| ? ? [b Hb] _]. congruence.
Qed.

Lemma attach_funding_exactly_when (m : gmap string (list stage_entry)) c :
  (forall k, is_Some (m !! k) -> inherited E k = false) ->
  (exists cf, attach_funding E m c = Normal cf) <-> inherited E (id c) = false.
Proof.
  intros Hkeys. unfold attach_funding.
  destruct (m !! id c) as [entries |] eqn:Hm; cbn [and_then].
  - split; [| eauto]. intros _. apply Hkeys. now rewrite Hm.
  - unfold inherited. destruct (has_builtin_property E (JObj []) (id c));
      cbn [and_then]; split; eauto; try discriminate.
    intros [cf Hcf]. discriminate.
Qed.

Lemma list_cards_try_normal q :
  (exists b, list_cards_try E db q = Normal b) <->
  failure db (count_sql q) (count_values q) = None
  /\ failure db (page_sql q) (page_values q) = None
  /\ failure db funding_sql [] = None
  /\ Forall (fun row => inherited E (property_key (card_id row)) = false)
       (card_stage_funding db)
  /\ exists n k,
       row_count (limit q) = Some n /\ row_count (offset q) = Some k
       /\ Forall (fun c => inherited E (id c) = false)
            (firstn n (skipn k (ordered db q))).
Proof.
  unfold list_cards_try, query_count, query_page, query_funding, pool_query,
    ordered.
  destruct (failure db (count_sql q) (count_values q)) as [e |];
    [split; [intros [b Hb]; discriminate | intros (H & _); discriminate] |].
  cbn [and_then].
  destruct (row_count (limit q)) as [n |];
    [| split; [intros [b Hb]; discriminate
              | intros (_ & _ & _ & _ & n & k & H & _); discriminate]].
  destruct (row_count (offset q)) as [k |];
    [| split; [intros [b Hb]; discriminate
              | intros (_ & _ & _ & _ & n' & k & _ & H & _); discriminate]].
  destruct (failure db (page_sql q) (page_values q)) as [e |];
    [split; [intros [b Hb]; discriminate | intros (_ & H & _); discriminate] |].
  cbn [and_then].
  destruct (failure db funding_sql []) as [e |];
    [split; [intros [b Hb]; discriminate | intros (_ & _ & H & _); discriminate] |].
  cbn [and_then].
  destruct (stageFundingMap_exactly_when (card_stage_funding db)) as [Hiff Hkeys].
  destruct (stageFundingMap E (card_stage_funding db)) as [m | e]; cbn [and_then].
  - pose proof (proj1 Hiff (ex_intro _ m eq_refl)) as Hrows.
    specialize (Hkeys m eq_refl).
    set (rows := firstn n (skipn k _)).
    assert (Hmap : (exists cs, map_rows (attach_funding E m) rows = Normal cs)
                   <-> Forall (fun c => inherited E (id c) = false) rows).
    { rewrite map_rows_exactly_when. split; intros Hall;
        (eapply List.Forall_impl; [| exact Hall]); intros c Hc;
        now apply (attach_funding_exactly_when m c Hkeys). }
    destruct (map_rows (attach_funding E m) rows) as [cs | e]; cbn [and_then].
    + split; [| eauto]. intros _. repeat split; try assumption.
      exists n, k. repeat split. apply Hmap. eauto.
    + split; [intros [b Hb]; discriminate |].
      intros (_ & _ & _ & _ & n' & k' & [= <-] & [= <-] & Hall).
      apply Hmap in Hall. destruct Hall as [cs Hcs]. discriminate.
  - split; [intros [b Hb]; discriminate |].
    intros (_ & _ & _ & Hrows & _). apply Hiff in Hrows.
    destruct Hrows as [m Hm]. discriminate.
Qed.

Lemma list_cards_answer_status q :
  match list_cards_try E db q with
  | Normal b =>
      list_cards_answer E db q = respond 200 b
      /\ exists p cs, b = CardList p cs
  | Throw _ => list_cards_answer E db q = internal_server_error
  end.
Proof.
  unfold list_cards_answer.
  destruct (list_cards_try E db q) as [b | e] eqn:Htry; [| reflexivity].
  split; [reflexivity |]. revert Htry. unfold list_cards_try.
  repeat match goal with
  | |- and_then ?c _ = Normal _ -> _ =>
      destruct c; cbn [and_then]; [| discriminate]
  end.
  intros [= <-]. eauto.
Qed.

(** The conversions before the [try] fail exactly when per_page or page is a
    value that does not convert to text. *)
Lemma paging_conversions_throw q :
  (exists e, paging_conversions E q = Throw e)
  <-> exists v, (q_per_page q = Some v \/ q_page q = Some v) /\ converts v = false.
Proof.
  unfold paging_conversions, conversion. split.
  - intros [e He].
    destruct (q_per_page q) as [v |] eqn:Hper.
    + destruct (converts v) eqn:Hv; [| exists v; eauto].
      cbn [and_then] in He.
      destruct (q_page q) as [w |]; [| discriminate].
      destruct (converts w) eqn:Hw; [discriminate | exists w; eauto].
    + cbn [and_then] in He.
      destruct (q_page q) as [w |]; [| discriminate].
      destruct (converts w) eqn:Hw; [discriminate | exists w; eauto].
  - intros (v & [Hv | Hv] & Hconv); rewrite Hv.
    + rewrite Hconv. cbn [and_then]. eauto.
    + rewrite Hconv.
      destruct (q_per_page q) as [w |]; [destruct (converts w) |];
        cbn [and_then]; eauto.
Qed.

(** What becomes of a request to the list endpoint.  It is answered with 200
    and a card list exactly when per_page and page convert to text,
    PostgreSQL accepts the three statements, limit and offset are
    non-negative integers, no row of the funding table has a [card_id] that
    names a property the empty object inherits, and no card of the requested
    page has such an id.  It gets no response exactly when per_page or page
    does not convert to text (an object with a toString property of its
    own): the handler then throws before its [try].  In every other case the
    answer is status 500 with the body Internal server error.  Every
    response sent carries the same Cache-Control header. *)
Theorem list_endpoint_succeeds_exactly_when (q : query) :
  ((exists p cs, list_cards E db q = respond 200 (CardList p cs)) <->
   paging_conversions E q = Normal tt
   /\ failure db (count_sql q) (count_values q) = None
   /\ failure db (page_sql q) (page_values q) = None
   /\ failure db funding_sql [] = None
   /\ Forall (fun row => inherited E (property_key (card_id row)) = false)
        (card_stage_funding db)
   /\ exists n k,
        row_count (limit q) = Some n /\ row_count (offset q) = Some k
        /\ Forall (fun c => inherited E (id c) = false)
             (firstn n (skipn k (ordered db q))))
  /\ ((exists e, list_cards E db q = Rejected e) <->
      exists v, (q_per_page q = Some v \/ q_page q = Some v)
                /\ converts v = false)
  /\ ((exists p cs, list_cards E db q = respond 200 (CardList p cs))
      \/ list_cards E db q = internal_server_error
      \/ exists e, list_cards E db q = Rejected e)
  /\ (forall r, list_cards E db q = Sent r ->
      cache_control r = "public, max-age=30").
Proof.
  pose proof (list_cards_answer_status q) as Hstatus.
  pose proof (list_cards_try_normal q) as Hnormal.
  pose proof (paging_conversions_throw q) as Hthrow.
  unfold list_cards.
  destruct (paging_conversions E q) as [[] | e0].
  - destruct (list_cards_try E db q) as [b | e].
    + destruct Hstatus as (-> & p & cs & ->).
      split; [| split; [| split]].
      * split; [intros _; split; [reflexivity | apply Hnormal; eauto] | eauto].
      * split; [intros [e' H]; discriminate |].
        intros Hv. apply Hthrow in Hv. destruct Hv as [e He]. discriminate.
      * left. eauto.
      * now intros r [= <-].
    + rewrite Hstatus. split; [| split; [| split]].
      * split; [intros (p & cs & H); discriminate |].
        intros (_ & Hcond). apply Hnormal in Hcond.
        destruct Hcond as [b Hb]. discriminate.
      * split; [intros [e' H]; discriminate |].
        intros Hv. apply Hthrow in Hv. destruct Hv as [e' He]. discriminate.
      * right. now left.
      * now intros r [= <-].
  - split; [| split; [| split]].
    + split; [intros (p & cs & H); discriminate | intros (H & _); discriminate].
    + split; [intros _; apply Hthrow; eauto | eauto].
    + right. right. eauto.
    + intros r H. discriminate.
Qed.

(** One row of the funding table whose [card_id] names a property that the
    empty object inherits (constructor, toString, __proto__, ...) lets no
    request succeed, whatever is asked for: the loop finds the inherited
    value under that key, creates no array and calls push on it.  Every
    request that reaches the [try] block is answered with 500, and the
    others, whose per_page or page does not convert to text, get no
    response. *)
Theorem an_inherited_name_in_the_funding_table_fails_every_request
  (row : funding_row) :
  In row (card_stage_funding db) ->
  inherited E (property_key (card_id row)) = true ->
  forall q,
    match paging_conversions E q with
    | Normal _ => list_cards E db q = internal_server_error
    | Throw e => list_cards E db q = Rejected e
    end.
Proof.
  intros Hin Hkey q.
  pose proof (list_cards_answer_status q) as Hstatus.
  pose proof (list_cards_try_normal q) as Hnormal.
  unfold list_cards.
  destruct (paging_conversions E q) as [[] | e0]; [| reflexivity].
  destruct (list_cards_try E db q) as [b | e]; [| now rewrite Hstatus].
  destruct (proj1 Hnormal (ex_intro _ b eq_refl)) as (_ & _ & _ & Hall & _).
  rewrite List.Forall_forall in Hall. specialize (Hall row Hin). congruence.
Qed.

(** *** The cards of a page *)

Lemma insert_sorted_In le (x y : card) l :
  In y (insert_sorted le x l) <-> y = x \/ In y l.
Proof.
  induction l as [| z l IH]; cbn [insert_sorted In]; [intuition congruence |].
  destruct (le x z); cbn [In]; [intuition congruence |].
  rewrite IH. intuition congruence.
Qed.

Lemma insert_sorted_length le (x : card) l :
  length (insert_sorted le x l) = S (length l).
Proof.
  induction l as [| z l IH]; [reflexivity |]. cbn [insert_sorted].
  destruct (le x z); cbn [length]; [reflexivity | now rewrite IH].
Qed.

(** ORDER BY rearranges the rows: none is added and none is lost. *)
Lemma order_by_In le rows (c : card) : In c (order_by le rows) <-> In c rows.
Proof.
  induction rows as [| r rows IH]; [reflexivity |].
  cbn [order_by fold_right In]. rewrite insert_sorted_In.
  unfold order_by in IH. rewrite IH. intuition congruence.
Qed.

Lemma order_by_length le rows : length (order_by le rows) = length rows.
Proof.
  induction rows as [| r rows IH]; [reflexivity |].
  cbn [order_by fold_right length]. rewrite insert_sorted_length.
  unfold order_by in IH. now rewrite IH.
Qed.

Lemma firstn_In {A} (x : A) n : forall l, In x (firstn n l) -> In x l.
Proof.
  induction n as [| n IH]; intros [| y l]; cbn [firstn In]; try tauto.
  intros [-> | Hin]; eauto.
Qed.

Lemma skipn_In {A} (x : A) n : forall l, In x (skipn n l) -> In x l.
Proof.
  induction n as [| n IH]; intros [| y l]; cbn [skipn In]; try tauto.
  intros Hin. right. now apply IH.
Qed.

Lemma map_rows_columns (m : gmap string (list stage_entry)) rows : forall cs,
  map_rows (attach_funding E m) rows = Normal cs ->
  List.map card_columns cs = rows.
Proof.
  induction rows as [| r rest IH]; intros cs; cbn [map_rows].
  - now intros [= <-].
  - destruct (attach_funding E m r) as [cf | e] eqn:Hr; [| discriminate].
    cbn [and_then].
    destruct (map_rows (attach_funding E m) rest) as [bs | e]; [| discriminate].
    cbn [and_then]. intros [= <-]. cbn [List.map].
    destruct (attach_funding_normal E m r cf Hr) as (-> & _).
    f_equal. now apply IH.
Qed.

Lemma nearest_even_ge a e : a / 2 ^ e <= nearest_even a e.
Proof.
  unfold nearest_even. cbv zeta.
  destruct (2 * (a mod 2 ^ e) <? 2 ^ e); [lia |].
  destruct (2 ^ e <? 2 * (a mod 2 ^ e)); [lia |].
  destruct (Z.even (a / 2 ^ e)); lia.
Qed.

(** An integer from 2^53 on is rounded to 53 significant bits, which keeps
    it at 2^53 or above. *)
Lemma rounded_large a :
  2 ^ 53 <= a ->
  2 ^ 53 <= nearest_even a (Z.log2 a - 52) * 2 ^ (Z.log2 a - 52).
Proof.
  intros Ha.
  assert (Hlog : 53 <= Z.log2 a) by (apply Z.log2_le_pow2; lia).
  set (e := Z.log2 a - 52) in *.
  assert (He : 0 < 2 ^ e) by (apply Z.pow_pos_nonneg; lia).
  assert (Hq : 2 ^ 52 <= a / 2 ^ e).
  { apply Z.div_le_lower_bound; [exact He |].
    rewrite Z.mul_comm, <- Z.pow_add_r by lia.
    replace (52 + e) with (Z.log2 a) by lia.
    apply Z.log2_spec. lia. }
  pose proof (nearest_even_ge a e) as Hge.
  assert (H2 : 2 <= 2 ^ e).
  { change 2 with (2 ^ 1) at 1. apply Z.pow_le_mono_r; lia. }
  change (2 ^ 53) with (2 ^ 52 * 2). nia.
Qed.

Lemma Number_of_Z_large z y :
  2 ^ 53 <= z -> Number_of_Z z = Num y -> 2 ^ 53 <= y.
Proof.
  intros Hz. unfold Number_of_Z. cbv zeta.
  rewrite (Z.abs_eq z) by lia.
  destruct (Z.ltb_spec z (2 ^ 53)) as [Hlt | _]; [lia |].
  destruct (2 ^ 1024 <=? _); [discriminate |].
  intros [= <-]. rewrite Z.sgn_pos by lia.
  pose proof (rounded_large z Hz). lia.
Qed.

(** Rounding does not turn a negative integer into a Number from 0 on. *)
Lemma Number_of_Z_nonneg z y : Number_of_Z z = Num y -> 0 <= y -> 0 <= z.
Proof.
  unfold Number_of_Z. cbv zeta.
  destruct (Z.ltb_spec (Z.abs z) (2 ^ 53)) as [Hlt | Hge];
    [now intros [= <-] |].
  destruct (2 ^ 1024 <=? _); [discriminate |].
  intros [= <-] Hy. destruct (Z.lt_ge_cases z 0) as [Hneg | Hpos]; [| exact Hpos].
  pose proof (rounded_large (Z.abs z) Hge) as Hv.
  rewrite Z.sgn_neg in Hy by exact Hneg. lia.
Qed.

(** The numbers behind a 200 response: limit and page are integers, the
    limit between 1 and 100 and the page at least 1, and the rows are those
    from row (page - 1) * limit on.  Where the handler's offset, the
    product rounded to binary64, is not that product, both lie beyond the
    last row. *)
Lemma list_cards_window q p cs :
  list_cards E db q = respond 200 (CardList p cs) ->
  exists l c,
    limit q = Num l /\ current_page q = Num c /\ 1 <= l <= 100 /\ 1 <= c
    /\ List.map card_columns cs
       = firstn (Z.to_nat l) (skipn (Z.to_nat ((c - 1) * l)) (ordered db q))
    /\ p = {| pagination_current_page := Num c; per_page := Num l;
              total_pages :=
                Num (- (- Z.of_nat (length (matching db q)) / l)) |}.
Proof.
  intros Hok.
  destruct (list_cards_ok E db q p cs Hok)
    as (n & k & m & Hn & Hk & Hm & Hmap & ->).
  destruct (row_count_some _ _ Hn) as (l & Hl & Hpos).
  destruct (limit_finite q l Hl) as [Hnz Hle].
  destruct (row_count_some _ _ Hk) as (o & Ho & Hopos).
  unfold offset in Ho. rewrite Hl in Ho.
  destruct (current_page q) as [| s | c] eqn:Hc;
    [discriminate Ho | cbn in Ho; destruct (l =? 0); discriminate Ho |].
  change (js_sub (Num c) (Num 1)) with (Number_of_Z (c - 1)) in Ho.
  destruct (Number_of_Z (c - 1)) as [| s | d] eqn:Hd;
    [discriminate Ho | cbn in Ho; destruct (l =? 0); discriminate Ho |].
  change (js_mul (Num d) (Num l)) with (Number_of_Z (d * l)) in Ho.
  destruct (row_count_is _ _ _ Hn Hl) as [-> _].
  assert (Hoff : offset q = Num o).
  { unfold offset. rewrite Hl, Hc.
    change (js_sub (Num c) (Num 1)) with (Number_of_Z (c - 1)). rewrite Hd.
    exact Ho. }
  destruct (row_count_is _ _ _ Hk Hoff) as [-> _].
  assert (Hdl : 0 <= d * l) by exact (Number_of_Z_nonneg _ _ Ho Hopos).
  assert (Hd0 : 0 <= d) by nia.
  assert (Hc1 : 0 <= c - 1) by exact (Number_of_Z_nonneg _ _ Hd Hd0).
  exists l, c. split; [exact Hl |]. split; [reflexivity |].
  split; [lia |]. split; [lia |]. split.
  - apply map_rows_columns in Hmap. rewrite Hmap. f_equal.
    fold (ordered db q).
    assert (Hlen : Z.of_nat (length (ordered db q)) < 2 ^ 53).
    { unfold ordered. rewrite order_by_length. apply matching_fits. }
    destruct (Z.lt_ge_cases (c - 1) (2 ^ 53)) as [Hsmall | Hbig].
    + rewrite Number_of_Z_small in Hd by lia. injection Hd as <-.
      destruct (Z.lt_ge_cases ((c - 1) * l) (2 ^ 53)) as [Hsmall' | Hbig'].
      * rewrite Number_of_Z_small in Ho by lia. now injection Ho as <-.
      * pose proof (Number_of_Z_large _ _ Hbig' Ho) as Ho'.
        rewrite !skipn_all2 by lia. reflexivity.
    + pose proof (Number_of_Z_large _ _ Hbig Hd) as Hd'.
      assert (Hbig' : 2 ^ 53 <= d * l) by nia.
      pose proof (Number_of_Z_large _ _ Hbig' Ho) as Ho'.
      assert (2 ^ 53 <= (c - 1) * l) by nia.
      rewrite !skipn_all2 by lia. reflexivity.
  - rewrite Hl. cbn [Math_ceil_div].
    assert (Hz : (l =? 0) = false) by (apply Z.eqb_neq; exact Hnz).
    now rewrite Hz.
Qed.

(** The cards of a 200 response are a window of the matching rows in the
    order of ORDER BY: with limit l and page c, the rows after the first
    (c - 1) * l, at most l of them, each with its columns unchanged.  Every
    card returned is a row of the table that satisfies the WHERE clause of
    the request under its bound values. *)
Theorem a_page_is_a_window_of_the_ordered_rows (q : query) (p : pagination)
  (cs : list card_with_funding) :
  list_cards E db q = respond 200 (CardList p cs) ->
  exists l c,
    per_page p = Num l /\ pagination_current_page p = Num c
    /\ 1 <= l <= 100 /\ 1 <= c
    /\ List.map card_columns cs
       = firstn (Z.to_nat l) (skipn (Z.to_nat ((c - 1) * l)) (ordered db q))
    /\ Forall (fun cf =>
         In (card_columns cf) (cards db)
         /\ where_holds db (whereClause q) (count_values q) (card_columns cf)
            = true) cs.
Proof.
  intros Hok.
  destruct (list_cards_window q p cs Hok) as (l & c & Hl & Hc & Hlr & Hcr & Hrows & ->).
  exists l, c. repeat split; try lia; [exact Hrows |].
  apply List.Forall_forall. intros cf Hcf.
  assert (Hin : In (card_columns cf) (matching db q)).
  { apply (order_by_In (precedes db (sortBySafe q) (sortDirSafe q))).
    fold (ordered db q).
    apply (skipn_In _ (Z.to_nat ((c - 1) * l))), (firstn_In _ (Z.to_nat l)).
    rewrite <- Hrows. now apply in_map. }
  unfold matching in Hin. apply filter_In in Hin. exact Hin.
Qed.

(** How many cards a 200 response carries: never more than per_page;
    exactly per_page when the page reported is before the last; what remains
    when it is the last; and none when it is after the last.  This is about
    the responses with status 200 only: a page after the last whose offset
    is no bigint any more is answered with 500. *)
Theorem pages_are_full_up_to_the_last (q : query) (p : pagination)
  (cs : list card_with_funding) :
  list_cards E db q = respond 200 (CardList p cs) ->
  let total_rows := Z.of_nat (length (matching db q)) in
  exists l c t,
    per_page p = Num l /\ pagination_current_page p = Num c
    /\ total_pages p = Num t
    /\ Z.of_nat (length cs) <= l
    /\ (c < t -> Z.of_nat (length cs) = l)
    /\ (c = t -> Z.of_nat (length cs) = total_rows - (t - 1) * l)
    /\ (t < c -> cs = []).
Proof.
  intros Hok total_rows.
  destruct (list_cards_window q p cs Hok) as (l & c & Hl & Hc & Hlr & Hcr & Hrows & ->).
  exists l, c, (- (- total_rows / l)). cbn [per_page pagination_current_page total_pages].
  pose proof (ceiling_bounds total_rows l ltac:(lia)) as Hceil.
  set (t := - (- total_rows / l)) in *.
  assert (Hlen : length cs
                 = Nat.min (Z.to_nat l)
                     (length (matching db q) - Z.to_nat ((c - 1) * l))).
  { rewrite <- (length_map card_columns), Hrows.
    rewrite length_firstn, length_skipn. unfold ordered.
    now rewrite order_by_length. }
  assert (Hoff : 0 <= (c - 1) * l) by nia.
  repeat split; try reflexivity.
  - lia.
  - intros Hct. assert ((c - 1) * l + l <= (t - 1) * l) by nia. lia.
  - intros ->. lia.
  - intros Htc. assert (t * l <= (c - 1) * l) by nia.
    apply length_zero_iff_nil. lia.
Qed.

(** *** Pages and limits the handler refuses *)

Lemma parseInt_minus z :
  0 <= z -> parseInt ("-" +:+ string_of_Z z) = Number_of_Z (- z).
Proof.
  intros Hz. unfold parseInt. rewrite append_cons.
  change ("" +:+ string_of_Z z) with (string_of_Z z).
  cbn [trim_start]. change (is_white_space "-") with false. cbv iota.
  pose proof (scan_Z_digits (Z.to_nat (Z.log2 z)) z "" 0
                (conj Hz (string_of_Z_fuel z Hz))) as Hscan.
  fold (string_of_Z z) in Hscan.
  destruct (scan_digits (string_of_Z z) None 0) as [[v n] r].
  cbn in Hscan. subst v. f_equal; lia.
Qed.

(** The Number for a negative integer is a negative integer or -Infinity. *)
Lemma Number_of_Z_negative z :
  z < 0 -> Number_of_Z z = Inf true \/ exists y, Number_of_Z z = Num y /\ y < 0.
Proof.
  intros Hz. destruct (Number_of_Z z) as [| s | y] eqn:Hn.
  - destruct (Number_of_Z_cases z) as [[s Hs] | [y Hy]]; congruence.
  - left. revert Hn. unfold Number_of_Z. cbv zeta.
    destruct (Z.abs z <? 2 ^ 53); [discriminate |].
    destruct (2 ^ 1024 <=? _); [| discriminate].
    intros [= <-]. apply Z.ltb_lt in Hz. now rewrite Hz.
  - right. exists y. split; [reflexivity |].
    destruct (Z.lt_ge_cases y 0) as [Hneg | Hpos]; [exact Hneg |].
    pose proof (Number_of_Z_nonneg z y Hn Hpos). lia.
Qed.

(** A Number that is no integer from 0 on is refused as LIMIT or OFFSET. *)
Lemma row_count_none_negative z : z < 0 -> row_count (Number_of_Z z) = None.
Proof.
  intros Hz. destruct (Number_of_Z_negative z Hz) as [-> | (y & -> & Hy)];
    [reflexivity |].
  now apply row_count_negative.
Qed.

(** The handler answers 200 only to a page that reads as an integer from 1
    on and to a per_page that does not read as a negative integer.  Among
    the requests whose per_page and page convert to text (all but those with
    an object that has a toString property of its own, which get no
    response), a page that reads as 0, as a negative integer or as no number,
    and a per_page that reads as a negative integer, are answered with 500:
    in particular every page that is a minus sign and digits, and every
    per_page that is a minus sign and the digits of a number from 1 on.  The
    page and the limit are then the Numbers for the negative integers: the
    integers themselves above -2^53, the binary64 values nearest to them or
    -Infinity below. *)
Theorem a_page_below_one_is_answered_with_500 (q : query) :
  paging_conversions E q = Normal tt ->
  ((forall c, current_page q = Num c -> c <= 0) ->
   list_cards E db q = internal_server_error)
  /\ ((forall l, limit q = Num l -> l < 0) ->
      list_cards E db q = internal_server_error)
  /\ (forall z, 0 <= z ->
      let raw := Some (QStr ("-" +:+ string_of_Z z)) in
      current_page (with_page raw q) = Number_of_Z (- z)
      /\ list_cards E db (with_page raw q) = internal_server_error
      /\ (1 <= z ->
          limit (with_per_page raw q) = Number_of_Z (- z)
          /\ list_cards E db (with_per_page raw q) = internal_server_error)).
Proof.
  intros Hconv.
  assert (Hpage : forall q',
            paging_conversions E q' = Normal tt ->
            (forall c, current_page q' = Num c -> c <= 0) ->
            list_cards E db q' = internal_server_error).
  { intros q' Hconv' Hc. apply list_cards_rejected_page; [exact Hconv' |].
    unfold offset.
    destruct (limit_range q') as [-> | (l & -> & Hnz & Hle)]; [now left |].
    destruct (Z.le_gt_cases 0 l) as [Hpos | Hneg];
      [right | left; now apply row_count_negative].
    destruct (current_page q') as [| s | c]; [reflexivity | |].
    - cbn. destruct (l =? 0); reflexivity.
    - specialize (Hc c eq_refl).
      change (js_sub (Num c) (Num 1)) with (Number_of_Z (c - 1)).
      destruct (Number_of_Z_negative (c - 1) ltac:(lia))
        as [-> | (d & -> & Hd)].
      + cbn. destruct (l =? 0); reflexivity.
      + change (js_mul (Num d) (Num l)) with (Number_of_Z (d * l)).
        apply row_count_none_negative. nia. }
  assert (Hlimit : forall q',
            paging_conversions E q' = Normal tt ->
            (forall l, limit q' = Num l -> l < 0) ->
            list_cards E db q' = internal_server_error).
  { intros q' Hconv' Hneg. apply list_cards_rejected_page; [exact Hconv' |].
    left. destruct (limit_range q') as [-> | (l & Hl & _)]; [reflexivity |].
    specialize (Hneg l Hl). rewrite Hl. now apply row_count_negative. }
  assert (Hper : conversion E (q_per_page q) = Normal tt
                 /\ conversion E (q_page q) = Normal tt).
  { revert Hconv. unfold paging_conversions.
    destruct (conversion E (q_per_page q)) as [[] | e]; [| discriminate].
    cbn [and_then].
    destruct (conversion E (q_page q)) as [[] | e]; [| discriminate].
    now split. }
  destruct Hper as [Hper Hpg].
  split; [now apply Hpage |]. split; [now apply Hlimit |].
  intros z Hz raw.
  assert (Hcurrent : current_page (with_page raw q) = Number_of_Z (- z)).
  { unfold current_page, with_page, raw.
    cbn [q_page or_default ToString qval_to_string].
    now apply parseInt_minus. }
  split; [exact Hcurrent |]. split.
  - apply Hpage.
    + unfold paging_conversions, with_page. cbn [q_per_page q_page].
      now rewrite Hper.
    + rewrite Hcurrent. intros c Hc.
      destruct (Z.eq_dec z 0) as [-> | Hnz]; [now injection Hc as <- |].
      destruct (Number_of_Z_negative (- z) ltac:(lia)) as [Hinf | (y & Hy & Hneg)];
        [congruence |].
      rewrite Hy in Hc. injection Hc as <-. lia.
  - intros Hz1.
    destruct (Number_of_Z_negative (- z) ltac:(lia)) as [Hinf | (y & Hy & Hneg)].
    + assert (Hl : limit (with_per_page raw q) = Number_of_Z (- z)).
      { unfold limit, with_per_page, raw.
        cbn [q_per_page or_default ToString qval_to_string].
        rewrite parseInt_minus by lia. now rewrite Hinf. }
      split; [exact Hl |]. apply Hlimit.
      * unfold paging_conversions, with_per_page. cbn [q_per_page q_page].
        exact Hpg.
      * rewrite Hl, Hinf. discriminate.
    + assert (Hl : limit (with_per_page raw q) = Number_of_Z (- z)).
      { unfold limit, with_per_page, raw.
        cbn [q_per_page or_default ToString qval_to_string].
        rewrite parseInt_minus by lia. rewrite Hy.
        destruct y as [| y' | y']; try lia. reflexivity. }
      split; [exact Hl |]. apply Hlimit.
      * unfold paging_conversions, with_per_page. cbn [q_per_page q_page].
        exact Hpg.
      * rewrite Hl, Hy. intros l [= <-]. exact Hneg.
Qed.

(** *** Amounts that are no numbers *)

Lemma fold_requested_nan entries :
  fold_left (fun sum s => (sum + requested_amount s)%float) entries nan = nan.
Proof.
  induction entries as [| s rest IH]; [reflexivity |].
  cbn [fold_left]. now rewrite add_nan_l.
Qed.

Lemma fold_requested_has_nan entries : forall start s,
  In s entries -> requested_amount s = nan ->
  fold_left (fun sum s => (sum + requested_amount s)%float) entries start = nan.
Proof.
  induction entries as [| s' rest IH]; intros start s Hin Hs; [destruct Hin |].
  cbn [fold_left]. destruct Hin as [-> | Hin].
  - rewrite Hs, add_nan_r. apply fold_requested_nan.
  - now apply (IH _ s).
Qed.

(** [total_funding_requested] is a running binary64 sum rendered by
    toFixed, so one amount that [parseFloat] cannot read spoils it: when a
    row of the funding table for a returned card has a funding_requested
    that reads as NaN (the numeric value NaN, or any text that starts with
    no number), the total of that card is the text NaN. *)
Theorem one_unreadable_amount_makes_the_card_total_NaN (q : query)
  (p : pagination) (cs : list card_with_funding) :
  list_cards E db q = respond 200 (CardList p cs) ->
  Forall (fun cf =>
    (exists row,
        In row (card_stage_funding db)
        /\ property_key (card_id row) = id (card_columns cf)
        /\ requested_amount (entry_of_row row) = nan) ->
    total_funding_requested cf = "NaN") cs.
Proof.
  intros Hok.
  destruct (list_cards_ok E db q p cs Hok) as (n & k & m & _ & _ & Hm & Hmap & _).
  eapply List.Forall_impl; [| exact (map_rows_normal _ _ _ Hmap)].
  intros cf (c & _ & Hcf) (row & Hin & Hkey & Hnan).
  destruct (attach_funding_normal E m c cf Hcf) as (Hc & Hsf & ->).
  assert (Hentry : In (entry_of_row row) (stage_funding cf)).
  { rewrite Hsf, <- Hc, (stageFundingMap_lookup E _ m _ Hm).
    unfold group_of. apply in_map, filter_In. split; [exact Hin |].
    now apply String.eqb_eq. }
  unfold sum_requested.
  rewrite (fold_requested_has_nan _ _ _ Hentry Hnan). reflexivity.
Qed.

End ListPages.

(* ===================================================================== *)
(** ** Further properties of the detail endpoint *)

Section Detail.

Context (E : engine) (db : database) (net : network).

(** What the detail handler makes of the rows its statement yields. *)
Lemma card_detail_cases req_id :
  match failure db detail_sql [Query (QStr req_id)],
        List.filter (public_with_id db req_id) (cards db) with
  | Some _, _ => card_detail E db net req_id = internal_server_error
  | None, [] => card_detail E db net req_id = not_found
  | None, c :: _ =>
      match wallet_addresses c with
      | Some ((_ :: _) as addresses) =>
          exists info,
            fetchWalletInfo E net addresses = Normal info
            /\ card_detail E db net req_id
               = respond 200 (CardDetail c (WalletInfo info))
      | _ => card_detail E db net req_id = respond 200 (CardDetail c NoWalletField)
      end
  end.
Proof.
  unfold card_detail, query_detail, pool_query.
  change (fun c => id_equals db (Query (QStr req_id)) c
                   && String.eqb (visibility c) "PUBLIC")
    with (public_with_id db req_id).
  destruct (failure db detail_sql [Query (QStr req_id)]); [reflexivity |].
  destruct (List.filter (public_with_id db req_id) (cards db)) as [| c rest];
    [reflexivity |].
  destruct (wallet_addresses c) as [[| a l] |]; try reflexivity.
  rewrite fetchWalletInfo_outcome. cbv zeta. eauto.
Qed.

Lemma filter_head {A} (f : A -> bool) l x rest :
  List.filter f l = x :: rest -> In x l /\ f x = true.
Proof.
  intros H. apply filter_In. rewrite H. now left.
Qed.

(** The detail endpoint never hands out a card that is not PUBLIC or has
    another id: whenever its response carries a card, the status is 200 and
    the card is a row of the table that has the requested id and is PUBLIC,
    the first such row in table order.  It answers 500 with the body
    Internal server error exactly when PostgreSQL rejects its statement. *)
Theorem detail_returns_only_a_public_card_with_the_id (req_id : string) :
  (forall c w,
     response_body (card_detail E db net req_id) = CardDetail c w ->
     status_code (card_detail E db net req_id) = 200%nat
     /\ In c (cards db)
     /\ id_equals db (Query (QStr req_id)) c = true
     /\ visibility c = "PUBLIC"
     /\ exists rest,
          List.filter (public_with_id db req_id) (cards db) = c :: rest)
  /\ (card_detail E db net req_id = internal_server_error
      <-> failure db detail_sql [Query (QStr req_id)] <> None).
Proof.
  pose proof (card_detail_cases req_id) as Hcases.
  destruct (failure db detail_sql [Query (QStr req_id)]) as [e |].
  - rewrite Hcases. split; [discriminate | split; [discriminate | reflexivity]].
  - destruct (List.filter (public_with_id db req_id) (cards db))
      as [| c0 rest] eqn:Hrows.
    + rewrite Hcases. split; [discriminate |].
      split; [discriminate | congruence].
    + destruct (filter_head _ _ _ _ Hrows) as [Hin Hpub].
      unfold public_with_id in Hpub. apply andb_true_iff in Hpub.
      destruct Hpub as [Hid Hvis]. apply String.eqb_eq in Hvis.
      assert (Hresp : exists w, card_detail E db net req_id
                                = respond 200 (CardDetail c0 w)).
      { destruct (wallet_addresses c0) as [[| a l] |]; eauto.
        destruct Hcases as (info & _ & ->). eauto. }
      destruct Hresp as [w0 ->]. split.
      * intros c w [= <- <-]. repeat split; eauto.
      * split; [discriminate | congruence].
Qed.

Lemma card_detail_without_addresses req_id c rest net' :
  failure db detail_sql [Query (QStr req_id)] = None ->
  List.filter (public_with_id db req_id) (cards db) = c :: rest ->
  wallet_addresses c = None \/ wallet_addresses c = Some [] ->
  card_detail E db net' req_id = respond 200 (CardDetail c NoWalletField).
Proof.
  intros Hfail Hrows Hnone.
  unfold card_detail, query_detail, pool_query. rewrite Hfail.
  change (fun c => id_equals db (Query (QStr req_id)) c
                   && String.eqb (visibility c) "PUBLIC")
    with (public_with_id db req_id).
  rewrite Hrows. now destruct Hnone as [-> | ->].
Qed.

(** A card is returned with wallet_info exactly when it has at least one
    wallet address; the info then has one entry per address, in order.  A
    card whose wallet_addresses is NULL or empty is returned as it is, and
    the answer is the same whatever the explorer would have said. *)
Theorem wallet_info_is_attached_when_there_are_addresses (req_id : string)
  (c : card) (w : wallet_field) :
  card_detail E db net req_id = respond 200 (CardDetail c w) ->
  match wallet_addresses c with
  | Some ((_ :: _) as addresses) =>
      exists info,
        w = WalletInfo info
        /\ fetchWalletInfo E net addresses = Normal info
        /\ List.map address_of (wallet_addresses_info info) = addresses
  | _ =>
      w = NoWalletField
      /\ forall net', card_detail E db net' req_id = card_detail E db net req_id
  end.
Proof.
  intros Hresp.
  pose proof (card_detail_cases req_id) as Hcases.
  destruct (failure db detail_sql [Query (QStr req_id)]) as [e |] eqn:Hfail;
    [rewrite Hcases in Hresp; discriminate |].
  destruct (List.filter (public_with_id db req_id) (cards db))
    as [| c0 rest] eqn:Hrows; [rewrite Hcases in Hresp; discriminate |].
  destruct (wallet_addresses c0) as [[| a l] |] eqn:Haddr.
  - rewrite Hcases in Hresp. injection Hresp as <- <-. rewrite Haddr.
    split; [reflexivity |]. intros net'.
    rewrite Hcases.
    now apply (card_detail_without_addresses req_id c0 rest net'); [| | right].
  - destruct Hcases as (info & Hinfo & Hc). rewrite Hc in Hresp.
    injection Hresp as <- <-. rewrite Haddr. exists info.
    repeat split; [exact Hinfo |].
    pose proof (fetchWalletInfo_outcome E net (a :: l)) as Hout.
    cbv zeta in Hout. rewrite Hinfo in Hout. injection Hout as ->.
    apply (entries_from_addresses E net (a :: l) 0%nat).
  - rewrite Hcases in Hresp. injection Hresp as <- <-. rewrite Haddr.
    split; [reflexivity |]. intros net'.
    rewrite Hcases.
    now apply (card_detail_without_addresses req_id c0 rest net'); [| | left].
Qed.

End Detail.

(* ===================================================================== *)
(** ** The two endpoints together *)

(** A card that the list endpoint returns can be fetched by its id.  On a
    database for which the WHERE clause of the list request holds for PUBLIC
    rows only, every row has its own id, and the detail statement for that
    id is accepted, the detail endpoint answers 200 for the id of every
    listed card, with a PUBLIC card of that id. *)
Theorem a_listed_card_can_be_fetched (E : engine) (db : database)
  (net : network) (q : query) (p : pagination) (cs : list card_with_funding)
  (cf : card_with_funding) :
  (forall c, where_holds db (whereClause q) (count_values q) c = true ->
             visibility c = "PUBLIC") ->
  (forall c, id_equals db (Query (QStr (id c))) c = true) ->
  failure db detail_sql [Query (QStr (id (card_columns cf)))] = None ->
  list_cards E db q = respond 200 (CardList p cs) ->
  In cf cs ->
  exists c w,
    card_detail E db net (id (card_columns cf)) = respond 200 (CardDetail c w)
    /\ id_equals db (Query (QStr (id (card_columns cf)))) c = true
    /\ visibility c = "PUBLIC".
Proof.
  intros Hwhere Hid Hfail Hok Hcf.
  destruct (list_cards_window E db q p cs Hok) as (l & c' & _ & _ & _ & _ & Hrows & _).
  assert (Hin : In (card_columns cf) (matching db q)).
  { apply (order_by_In (precedes db (sortBySafe q) (sortDirSafe q))).
    fold (ordered db q).
    apply (skipn_In _ (Z.to_nat ((c' - 1) * l))), (firstn_In _ (Z.to_nat l)).
    rewrite <- Hrows. now apply in_map. }
  unfold matching in Hin. apply filter_In in Hin. destruct Hin as [Hin Hholds].
  set (req_id := id (card_columns cf)) in *.
  assert (Hfound : In (card_columns cf)
                     (List.filter (public_with_id db req_id) (cards db))).
  { apply filter_In. split; [exact Hin |]. unfold public_with_id.
    apply andb_true_iff. split; [apply Hid |].
    apply String.eqb_eq. now apply Hwhere. }
  pose proof (card_detail_cases E db net req_id) as Hcases.
  rewrite Hfail in Hcases.
  destruct (List.filter (public_with_id db req_id) (cards db))
    as [| c rest] eqn:Hfilter; [destruct Hfound |].
  destruct (filter_head _ _ _ _ Hfilter) as [_ Hpub].
  unfold public_with_id in Hpub. apply andb_true_iff in Hpub.
  destruct Hpub as [Hc Hvis]. apply String.eqb_eq in Hvis.
  destruct (wallet_addresses c) as [[| a l'] |].
  - exists c, NoWalletField. now repeat split.
  - destruct Hcases as (info & _ & Hresp).
    exists c, (WalletInfo info). now repeat split.
  - exists c, NoWalletField. now repeat split.
Qed.

(* ===================================================================== *)
(** ** Concrete runs of the further properties *)

Lemma one_NaN_amount_makes_the_total_NaN_witness :
  exists w,
    fetchWalletInfo sample_engine incomplete_network ["t1abc"; "t1def"] = Normal w
    /\ totals_balance (wallet_totals w) = nan
    /\ totals_total_received (wallet_totals w) = nan
    /\ totals_total_sent (wallet_totals w) = nan.
Proof.
  destruct (one_NaN_amount_makes_the_total_NaN sample_engine incomplete_network
              ["t1abc"; "t1def"] 0 "t1abc"
              {| balance := nan; received := nan; sent := nan;
                 transactions := JArr [] |})
    as (w & Hw & Hb & Hr & Hs).
  - reflexivity.
  - vm_compute. reflexivity.
  - exists w. repeat split; [exact Hw | apply Hb | apply Hr | apply Hs];
      reflexivity.
Defined.

Lemma totals_are_zero_when_every_lookup_fails_witness :
  exists w,
    fetchWalletInfo sample_engine sample_network ["t1abc"] = Normal w
    /\ wallet_totals w
       = {| totals_balance := 0; totals_total_received := 0;
            totals_total_sent := 0 |}.
Proof.
  destruct (totals_are_zero_when_every_lookup_fails sample_engine sample_network
              ["t1abc"]) as (w & Hw & _ & _ & Htotals).
  - intros [| i] addr Hi; [| discriminate Hi].
    injection Hi as <-. eexists. vm_compute. reflexivity.
  - exists w. split; assumption.
Defined.

Lemma limit_is_clamped_above_witness :
  limit (with_per_page (Some (QStr "250")) no_query) = Num 100
  /\ limit (with_per_page (Some (QStr "0")) no_query) = Num 10
  /\ limit (with_per_page (Some (QStr "-3")) no_query) = Num (-3).
Proof.
  pose proof (limit_is_clamped_above sample_engine
                (with_per_page (Some (QStr "250")) no_query) eq_refl) as Hhigh.
  pose proof (limit_is_clamped_above sample_engine
                (with_per_page (Some (QStr "0")) no_query) eq_refl) as Hzero.
  pose proof (limit_is_clamped_above sample_engine
                (with_per_page (Some (QStr "-3")) no_query) eq_refl) as Hlow.
  cbv zeta in Hhigh, Hzero, Hlow.
  destruct Hhigh as (_ & _ & Hhigh & _).
  destruct Hzero as (_ & _ & Hzero & _).
  destruct Hlow as (_ & _ & Hlow & _).
  split; [| split].
  - apply (Hhigh 250); [reflexivity | lia].
  - apply (Hzero 0); reflexivity.
  - apply (Hlow (-3)); [reflexivity | lia | lia].
Defined.

Lemma text_after_the_digits_is_ignored_witness :
  current_page (with_page (Some (QStr "2abc")) two_per_page) = Num 2
  /\ list_cards sample_engine sample_db (with_page (Some (QStr "2abc")) two_per_page)
     = list_cards sample_engine sample_db (with_page (Some (QStr "2")) two_per_page).
Proof.
  pose proof (text_after_the_digits_is_ignored sample_engine sample_db
                two_per_page 2 "abc") as H.
  cbv zeta in H. destruct H as (_ & Hpage & Hlist & _); [lia | reflexivity |].
  split; [apply Hpage; reflexivity | exact Hlist].
Defined.

Lemma an_inherited_name_in_the_funding_table_fails_every_request_witness :
  list_cards sample_engine (with_funding funding_with_inherited_name sample_db)
    no_query
  = internal_server_error.
Proof.
  apply (an_inherited_name_in_the_funding_table_fails_every_request
           sample_engine (with_funding funding_with_inherited_name sample_db)
           {| card_id := Some "constructor"; stage := Some "DESIGN";
              funding_requested := Some "1" |}
           ltac:(right; left; reflexivity) eq_refl no_query).
Defined.

Lemma a_page_below_one_is_answered_with_500_witness :
  list_cards sample_engine sample_db (with_page (Some (QStr "-3")) two_per_page)
  = internal_server_error
  /\ list_cards sample_engine sample_db
       (with_per_page (Some (QStr "-3")) two_per_page)
     = internal_server_error.
Proof.
  pose proof (a_page_below_one_is_answered_with_500 sample_engine sample_db
                two_per_page eq_refl) as (_ & _ & H).
  destruct (H 3 ltac:(lia)) as (_ & Hpage & Hper).
  split; [exact Hpage | apply Hper; lia].
Defined.

Lemma a_page_is_a_window_of_the_ordered_rows_witness :
  exists l c,
    per_page first_page = Num l /\ pagination_current_page first_page = Num c
    /\ 1 <= l <= 100 /\ 1 <= c
    /\ List.map card_columns first_page_cards
       = firstn (Z.to_nat l)
           (skipn (Z.to_nat ((c - 1) * l)) (ordered sample_db two_per_page))
    /\ Forall (fun cf =>
         In (card_columns cf) (cards sample_db)
         /\ where_holds sample_db (whereClause two_per_page)
              (count_values two_per_page) (card_columns cf) = true)
         first_page_cards.
Proof.
  apply (a_page_is_a_window_of_the_ordered_rows sample_engine sample_db
           two_per_page first_page first_page_cards).
  vm_compute. reflexivity.
Defined.

Lemma pages_are_full_up_to_the_last_witness :
  exists l c t,
    per_page first_page = Num l /\ pagination_current_page first_page = Num c
    /\ total_pages first_page = Num t
    /\ Z.of_nat (length first_page_cards) <= l
    /\ (c < t -> Z.of_nat (length first_page_cards) = l)
    /\ (c = t ->
        Z.of_nat (length first_page_cards)
        = Z.of_nat (length (matching sample_db two_per_page)) - (t - 1) * l)
    /\ (t < c -> first_page_cards = []).
Proof.
  apply (pages_are_full_up_to_the_last sample_engine sample_db two_per_page
           first_page first_page_cards).
  vm_compute. reflexivity.
Defined.

Lemma one_unreadable_amount_makes_the_card_total_NaN_witness :
  Forall (fun cf =>
    (exists row,
        In row funding_with_NaN
        /\ property_key (card_id row) = id (card_columns cf)
        /\ requested_amount (entry_of_row row) = nan) ->
    total_funding_requested cf = "NaN") first_page_cards_with_NaN.
Proof.
  apply (one_unreadable_amount_makes_the_card_total_NaN sample_engine
           (with_funding funding_with_NaN sample_db) two_per_page first_page
           first_page_cards_with_NaN).
  vm_compute. reflexivity.
Defined.

Lemma wallet_info_is_attached_when_there_are_addresses_witness :
  (exists info,
      WalletInfo sample_wallet = WalletInfo info
      /\ fetchWalletInfo sample_engine sample_network ["t1abc"; "t1def"]
         = Normal info
      /\ List.map address_of (wallet_addresses_info info) = ["t1abc"; "t1def"])
  /\ forall net',
       card_detail sample_engine sample_db net' (id card_3)
       = card_detail sample_engine sample_db sample_network (id card_3).
Proof.
  split.
  - apply (wallet_info_is_attached_when_there_are_addresses sample_engine
             sample_db sample_network (id card_1) card_1 (WalletInfo sample_wallet)).
    vm_compute. reflexivity.
  - apply (wallet_info_is_attached_when_there_are_addresses sample_engine
             sample_db sample_network (id card_3) card_3 NoWalletField).
    vm_compute. reflexivity.
Defined.


Lemma a_listed_card_can_be_fetched_witness :
  exists c w,
    card_detail sample_engine sample_db sample_network (id card_3)
    = respond 200 (CardDetail c w)
    /\ id_equals sample_db (Query (QStr (id card_3))) c = true
    /\ visibility c = "PUBLIC".
Proof.
  apply (a_listed_card_can_be_fetched sample_engine sample_db sample_network
           two_per_page first_page first_page_cards
           {| card_columns := card_3;
              stage_funding := [sample_entry "DESIGN" "0.1";
                                sample_entry "DEVELOP" "0.2"];
              total_funding_requested := "0.30000000" |}).
  - intros c Hc. now apply String.eqb_eq.
  - intros c. apply String.eqb_refl.
  - reflexivity.
  - vm_compute. reflexivity.
  - right. left. reflexivity.
Defined.

(** *** Requests at the edges of the paging inputs *)

(** 2^53 + 1 is no binary64 value: the page reported is 2^53. *)
Example parseInt_rounds_from_2_53 :
  parseInt "9007199254740993" = Num 9007199254740992
  /\ current_page (with_page (Some (QStr "9007199254740993")) no_query)
     = Num 9007199254740992.
Proof. split; vm_compute; reflexivity. Qed.

(** A minus sign and 310 digits read as -Infinity, which is the limit
    then. *)
Example limit_of_minus_infinity :
  limit (with_per_page (Some (QStr ("-" +:+ string_of_Z (10 ^ 309)))) no_query)
  = Inf true.
Proof. vm_compute. reflexivity. Qed.

(** page[toString]=1 makes the query value an object that does not convert
    to a string: [parseInt] throws a TypeError on line 249, outside the
    [try], and no response is sent. *)
Example an_object_with_toString_gets_no_response :
  list_cards sample_engine sample_db
    (with_page (Some (QObj [("toString", QStr "1")])) no_query)
  = Rejected (TypeError "Cannot convert object to primitive value").
Proof. vm_compute. reflexivity. Qed.

(** A page far after the last, whose offset is no bigint, is answered with
    500 and not with an empty page. *)
Example a_far_page_is_answered_with_500 :
  offset (with_page (Some (QStr "99999999999999999999")) no_query)
  = Num (10 ^ 21)
  /\ list_cards sample_engine sample_db
       (with_page (Some (QStr "99999999999999999999")) no_query)
     = internal_server_error
  /\ list_cards sample_engine sample_db
       (with_page (Some (QStr "99")) no_query)
     = respond 200
         (CardList
            {| pagination_current_page := Num 99; per_page := Num 10;
               total_pages := Num 1 |} []).
Proof. repeat split; vm_compute; reflexivity. Qed.

(** With an inherited name in the funding table, a request whose page does
    not convert to text still throws before the [try]: it is not answered
    with 500. *)
Example an_unconvertible_page_throws_before_the_funding_loop :
  list_cards sample_engine (with_funding funding_with_inherited_name sample_db)
    (with_page (Some (QObj [("toString", QStr "1")])) no_query)
  = Rejected (TypeError "Cannot convert object to primitive value")
  /\ list_cards sample_engine
       (with_funding funding_with_inherited_name sample_db)
       (with_page (Some (QObj [("toString", QStr "1")])) no_query)
     <> internal_server_error.
Proof. split; [vm_compute; reflexivity | vm_compute; discriminate]. Qed.
